(** * no-implicit-dependencies: a shallow embedding of
      [src/rules/noImplicitDependenciesRule.ts]

    The rule walks the module specifiers of one source file and reports
    every package that the nearest [package.json] does not list.

    Conventions of the embedding:
    - a JavaScript string is a [string]: the sequence of bytes of its UTF-8
      encoding.  The characters the rule inspects (['@'], ['/'], ['.'],
      ['\']) are ASCII, so testing and splitting on them is the same on
      bytes as on UTF-16 code units;
    - [Set<string>] is [gset string];
    - [undefined] is [None];
    - the services of the platform (the [path] and [fs] modules,
      [JSON.parse], the TypeScript predicate on module names, the list of
      built-in modules) are parameters, gathered in [Platform]. *)

From Stdlib Require Import Ascii String.
From stdpp Require Import base decidable option list strings gmap pretty.
From Equations Require Import Equations.

Local Open Scope string_scope.
Set Warnings "-register-all,-clear-no-such-hyp".

(** ** Strings *)

(** [s.split(/sep/g)] for a one-character separator that is not a
    metacharacter: the pieces between the occurrences of [sep], empty
    pieces included.  The result is never the empty array. *)
Fixpoint split_on (sep : ascii) (s : string) : list string :=
  match s with
  | EmptyString => [EmptyString]
  | String c rest =>
      if decide (c = sep) then EmptyString :: split_on sep rest
      else match split_on sep rest with
           | [] => [String c EmptyString]
           | piece :: pieces => String c piece :: pieces
           end
  end.

(** [pieces.join(sep)]. *)
Fixpoint join_with (sep : string) (pieces : list string) : string :=
  match pieces with
  | [] => ""
  | [p] => p
  | p :: ps => p ++ sep ++ join_with sep ps
  end.

(** [s[0]], a one-character string or [undefined]. *)
Definition char_at_0 (s : string) : option ascii := String.get 0 s.

(** The string a template literal [`${v}`] inserts for a value that is a
    string or [undefined]. *)
Definition template (v : option string) : string :=
  match v with
  | Some s => s
  | None => "undefined"
  end.

(** Does the byte [c] occur in [s]? *)
Fixpoint occurs (c : ascii) (s : string) : bool :=
  match s with
  | EmptyString => false
  | String d rest => bool_decide (d = c) || occurs c rest
  end.

(** ** [getPackageName] *)

(** Lines 114-120.  [parts[0]] is always defined ([split_on] never returns
    the empty list), so the default of the first branch is never taken. *)
Definition getPackageName (name : string) : string :=
  let parts := split_on "/" name in
  if decide (char_at_0 name ≠ Some "@"%char) then
    default "" (parts !! 0%nat)
  else
    template (parts !! 0%nat) ++ "/" ++ template (parts !! 1%nat).

(** The derivation in the words of the specification: a name that starts
    with ['@'] stands for its first two ['/']-delimited segments joined by
    ['/'], any other name for its first segment. *)
Definition spec_packageName (name : string) : string :=
  let segments := split_on "/" name in
  if decide (char_at_0 name = Some "@"%char) then join_with "/" (take 2 segments)
  else join_with "/" (take 1 segments).

Example getPackageName_scoped : getPackageName "@scope/pkg/sub" = "@scope/pkg".
Proof. reflexivity. Qed.

Example getPackageName_unscoped : getPackageName "lodash/fp" = "lodash".
Proof. reflexivity. Qed.

Example getPackageName_bare_scope : getPackageName "@scope" = "@scope/undefined".
Proof. reflexivity. Qed.

(** The first value a list of pairs gives for [key]. *)
Fixpoint assoc {A : Type} (key : string) (pairs : list (string * A)) : option A :=
  match pairs with
  | [] => None
  | (k, a) :: rest => if decide (k = key) then Some a else assoc key rest
  end.

(** ** Values read from a manifest *)

(** What [JSON.parse] builds.  An object is the list of its own properties
    in enumeration order; a number keeps its literal, which the rule never
    inspects. *)
Inductive JsValue : Type :=
| JNull
| JBool (b : bool)
| JNumber (literal : string)
| JString (s : string)
| JArray (items : list JsValue)
| JObject (props : list (string * JsValue)).

(** How an evaluation ends: with a value, or by throwing. *)
Inductive outcome (A : Type) : Type :=
| Returned (a : A)
| Thrown.
Arguments Returned {A} a.
Arguments Thrown {A}.

(** The value of an own property of an object built by [JSON.parse]. *)
Definition own_property (key : string) (props : list (string * JsValue)) : option JsValue :=
  assoc key props.

(** The number of UTF-16 code units of a string given by its UTF-8 bytes:
    one per leading byte, and one more for the leading byte of a four-byte
    sequence (a surrogate pair). *)
Fixpoint utf16_length (s : string) : nat :=
  match s with
  | EmptyString => 0
  | String c rest =>
      let b := nat_of_ascii c in
      ((if decide (128 ≤ b < 192) then 0 else if decide (240 ≤ b) then 2 else 1)
       + utf16_length rest)%nat
  end.

(** The property names ["0"], ..., ["n-1"] of an array or string of
    length [n]. *)
Definition index_keys (n : nat) : list string := pretty <$> seq 0 n.

(** The names a [for (name in v)] loop runs through, in order.  The
    prototypes of the values of [JSON.parse] have no enumerable property,
    so these are own properties; [null], booleans and numbers have none. *)
Definition enumerable_keys (v : JsValue) : list string :=
  match v with
  | JObject props => props.*1
  | JArray items => index_keys (length items)
  | JString s => index_keys (utf16_length s)
  | JNull | JBool _ | JNumber _ => []
  end.

(** All own property names: arrays and strings also own ["length"], which
    is not enumerable. *)
Definition own_keys (v : JsValue) : list string :=
  match v with
  | JArray _ | JString _ => enumerable_keys v ++ ["length"]
  | _ => enumerable_keys v
  end.

(** The four sections of a manifest the rule reads. *)
Inductive ManifestSection : Type :=
| dependencies_section
| devDependencies_section
| peerDependencies_section
| optionalDependencies_section.

Definition section_key (s : ManifestSection) : string :=
  match s with
  | dependencies_section => "dependencies"
  | devDependencies_section => "devDependencies"
  | peerDependencies_section => "peerDependencies"
  | optionalDependencies_section => "optionalDependencies"
  end.

(** [content.dependencies] and its three siblings.  Reading a property of
    [null] throws a TypeError; no prototype of a primitive or of an array
    defines one of the four names, so there the value is [undefined]. *)
Definition read_section (content : JsValue) (s : ManifestSection) : outcome (option JsValue) :=
  match content with
  | JNull => Thrown
  | JObject props => Returned (own_property (section_key s) props)
  | JBool _ | JNumber _ | JString _ | JArray _ => Returned None
  end.

(** [dependencies.hasOwnProperty(name)].  The method is looked up on the
    value itself: an own property called ["hasOwnProperty"] shadows the one
    of [Object.prototype], and since no value of [JSON.parse] is callable
    the call then throws a TypeError. *)
Definition call_hasOwnProperty (dependencies : JsValue) (name : string) : outcome bool :=
  match dependencies with
  | JNull => Thrown
  | JObject props =>
      match own_property "hasOwnProperty" props with
      | Some _ => Thrown
      | None => Returned (bool_decide (name ∈ own_keys dependencies))
      end
  | JBool _ | JNumber _ | JString _ | JArray _ =>
      Returned (bool_decide (name ∈ own_keys dependencies))
  end.

(** ** The platform *)

(** The state of the file system, as [fs.existsSync] and
    [fs.readFileSync(_, "utf8")] observe it; [None] is a read that throws. *)
Record FileSystem : Type := {
  existsSync : string → bool;
  readFileSync : string → option string
}.

(** The services the rule imports.  [path_depth] bounds the number of
    [path.dirname] steps to the fixed point: this is what makes "walk up
    until the parent is the directory itself" a terminating loop. *)
Class Platform : Type := {
  path_dirname : string → string;
  path_join : string → string → string;
  path_resolve : string → string;
  path_depth : string → nat;
  path_dirname_progress :
    ∀ p, path_dirname p ≠ p → (path_depth (path_dirname p) < path_depth p)%nat;
  JSON_parse : string → option JsValue;
  isExternalModuleNameRelative : string → bool;
  builtins : list string
}.

(** What a run does to the file system, in order.  [CallGetDependencies]
    marks an entry into [getDependencies]. *)
Inductive Event : Type :=
| CallGetDependencies (fileName : string)
| ExistsSync (fileName : string)
| ReadFileSync (fileName : string).

Global Instance Event_eq_dec : EqDecision Event.
Proof. solve_decision. Defined.

Definition is_read (e : Event) : bool :=
  match e with ReadFileSync _ => true | _ => false end.

Definition is_resolution (e : Event) : bool :=
  match e with CallGetDependencies _ => true | _ => false end.

Definition count_events (p : Event → bool) (t : list Event) : nat :=
  length (filter (λ e, p e = true) t).

(** ** The data of the rule *)

(** Lines 26-30. *)
Record Options : Type := {
  dev : bool;
  optional : bool;
  ignore : list string
}.

(** Lines 82-89: the defaults, overridden by the fields the configuration
    gives. *)
Record PartialOptions : Type := {
  given_dev : option bool;
  given_optional : option bool;
  given_ignore : option (list string)
}.

Definition parseOptions (options : option PartialOptions) : Options :=
  match options with
  | None => {| dev := false; ignore := []; optional := false |}
  | Some o =>
      {| dev := default false (given_dev o);
         ignore := default [] (given_ignore o);
         optional := default false (given_optional o) |}
  end.

(** A module specifier of the file: its text and where it stands. *)
Record Node : Type := {
  text : string;
  pos : nat;
  width : nat
}.

Global Instance Node_eq_dec : EqDecision Node.
Proof. solve_decision. Defined.

(** A source file, as the rule sees it: its name and the result of
    [findImports(sourceFile, ImportKind.All)], in the order of the text. *)
Record SourceFile : Type := {
  fileName : string;
  findImports : list Node
}.

(** A reported failure. *)
Record RuleFailure : Type := {
  failure_node : Node;
  failure_message : string
}.

(** Lines 72-74. *)
Definition FAILURE_STRING_FACTORY (module : string) : string :=
  "Module '" ++ module ++ "' is not listed as dependency in package.json".

(** The mutable state of one run of [walk]: the variable [dependencies] of
    its closure, the failures of its context, and what the run did to the
    file system so far. *)
Record WalkState : Type := {
  dependencies : option (gset string);
  failures : list RuleFailure;
  trace : list Event
}.

Definition initial_state : WalkState :=
  {| dependencies := None; failures := []; trace := [] |}.

(** Modelled from the spec: [WalkContext.addFailureAtNode] is not among the
    sources.  A finding carries the location of the reference and the
    message, and findings are kept in the order they are emitted. *)
Definition addFailureAtNode (node : Node) (failure : string) (st : WalkState) : WalkState :=
  {| dependencies := dependencies st;
     failures :=
       (failures st ++ [{| failure_node := node; failure_message := failure |}])%list;
     trace := trace st |}.

(** ** Filling a set inside a [try] block *)

(** A computation that adds to the set [result] and may throw; what was
    added before the throw stays in the set. *)
Definition Filling (A : Type) : Type := gset string → outcome A * gset string.

Global Instance Filling_ret : MRet Filling := λ A a result, (Returned a, result).

Global Instance Filling_bind : MBind Filling := λ A B k m result,
  match m result with
  | (Returned a, result') => k a result'
  | (Thrown, result') => (Thrown, result')
  end.

Definition evaluate {A} (o : outcome A) : Filling A := λ result, (o, result).

Definition or_throw {A} (o : option A) : Filling A := λ result,
  match o with
  | Some a => (Returned a, result)
  | None => (Thrown, result)
  end.

(** [result.add(name)]. *)
Definition add (name : string) : Filling unit := λ result, (Returned (), {[name]} ∪ result).

(** The byte order mark U+FEFF, in UTF-8. *)
Definition byte_order_mark : string :=
  String (ascii_of_nat 239) (String (ascii_of_nat 187) (String (ascii_of_nat 191) "")).

(** [content.replace(/^\uFEFF/, "")]. *)
Definition remove_byte_order_mark (content : string) : string :=
  match content with
  | String a (String b (String c rest)) =>
      if decide (String a (String b (String c "")) = byte_order_mark) then rest else content
  | _ => content
  end.

(** Lines 161-167, the loop from the property [names] on. *)
Fixpoint addDependencies_from (deps : JsValue) (names : list string) : Filling unit :=
  match names with
  | [] => mret ()
  | name :: rest =>
      own ← evaluate (call_hasOwnProperty deps name);
      (if (own : bool) then add name else mret ());;
      addDependencies_from deps rest
  end.

(** Lines 161-167. *)
Definition addDependencies (deps : JsValue) : Filling unit :=
  addDependencies_from deps (enumerable_keys deps).

(** [if (guard && content.section !== undefined) addDependencies(result,
    content.section)]; the property is not read when the guard fails. *)
Definition add_section (guard : bool) (content : JsValue) (s : ManifestSection) : Filling unit :=
  if guard then
    section ← evaluate (read_section content s);
    match section with
    | Some deps => addDependencies deps
    | None => mret ()
    end
  else mret ().

Section Rule.
Context `{Platform}.
Variable fs : FileSystem.

(** *** [findPackageJson] *)

(** Lines 169-180: the [do ... while (prev !== current)] loop, one
    unfolding per iteration.  The second component lists the calls of
    [fs.existsSync]. *)
Equations? findPackageJson (current : string) : option string * list Event
  by wf (path_depth current) lt :=
findPackageJson current with existsSync fs (path_join current "package.json") := {
  | true =>
      (Some (path_join current "package.json"),
       [ExistsSync (path_join current "package.json")]);
  | false with decide (path_dirname current = current) := {
      | left _ =>
          (None, [ExistsSync (path_join current "package.json")]);
      | right _ =>
          let r := findPackageJson (path_dirname current) in
          (r.1, ExistsSync (path_join current "package.json") :: r.2) } }.
Proof. by apply path_dirname_progress. Qed.

(** *** [getDependencies] *)

(** Lines 140-152: the body of the [try] block. *)
Definition read_manifest (options : Options) (packageJsonPath : string) : Filling unit :=
  raw ← or_throw (readFileSync fs packageJsonPath);
  content ← or_throw (JSON_parse (remove_byte_order_mark raw));
  add_section true content dependencies_section;;
  add_section (negb (dev options)) content peerDependencies_section;;
  add_section (dev options) content devDependencies_section;;
  add_section (optional options) content optionalDependencies_section.

(** Lines 133-159.  The [catch] clause is empty: whether the block
    returned or threw, the function returns the set as it then is. *)
Definition getDependencies (file : string) (options : Options) : gset string * list Event :=
  let found := findPackageJson (path_resolve (path_dirname file)) in
  match found.1 with
  | Some packageJsonPath =>
      ((read_manifest options packageJsonPath ∅).2,
       (found.2 ++ [ReadFileSync packageJsonPath])%list)
  | None => (∅, found.2)
  end.

(** *** [walk] *)

Variable sourceFile : SourceFile.
Variable options : Options.

(** Lines 103-111. *)
Definition shouldWarnAboutDependency (module : string) (st : WalkState) : bool * WalkState :=
  let st' :=
    match dependencies st with
    | None =>
        let resolved := getDependencies (fileName sourceFile) options in
        {| dependencies := Some resolved.1;
           failures := failures st;
           trace :=
             (trace st ++ CallGetDependencies (fileName sourceFile) :: resolved.2)%list |}
    | Some _ => st
    end in
  let hasDependency := bool_decide (module ∈ default ∅ (dependencies st')) in
  let shouldIgnore := bool_decide (module ∈ ignore options) in
  (negb (hasDependency || shouldIgnore), st').

(** Lines 95-100: the body of the loop, for one module specifier. *)
Definition visit (st : WalkState) (name : Node) : WalkState :=
  if negb (isExternalModuleNameRelative (text name)) then
    let packageName := getPackageName (text name) in
    if bool_decide (packageName ∉ builtins) then
      let (warn, st') := shouldWarnAboutDependency packageName st in
      if warn then addFailureAtNode name (FAILURE_STRING_FACTORY packageName) st'
      else st'
    else st
  else st.

(** Lines 91-101. *)
Definition walk : WalkState := foldl visit initial_state (findImports sourceFile).

End Rule.

(** ** A concrete platform: Node on POSIX *)

Module Posix.

Definition is_slash (c : option ascii) : bool := bool_decide (c = Some "/"%char).

(** The loop of [path.posix.dirname]: [i] runs from the last index down to
    1 and stops at the first ['/'] that follows, leftwards, a character
    that is not one. *)
Fixpoint dirname_scan (path : string) (i : nat) (matchedSlash : bool) : option nat :=
  match i with
  | O => None
  | S j =>
      if is_slash (String.get i path) then
        if matchedSlash then dirname_scan path j true else Some i
      else dirname_scan path j false
  end.

(** [path.posix.dirname]. *)
Definition dirname (path : string) : string :=
  if decide (path = "") then "."
  else
    let hasRoot := is_slash (String.get 0 path) in
    match dirname_scan path (String.length path - 1) true with
    | None => if hasRoot then "/" else "."
    | Some end_ =>
        if hasRoot && bool_decide (end_ = 1%nat) then "//"
        else String.substring 0 end_ path
    end.

(** [normalizeString], on the segments of the path: empty segments and
    ["."] are dropped, [".."] removes the segment before it, or is kept
    when there is none and [allowAboveRoot] holds.  [kept] is the result
    so far, last segment first. *)
Fixpoint normalize_segments (allowAboveRoot : bool) (kept segments : list string)
  : list string :=
  match segments with
  | [] => reverse kept
  | segment :: rest =>
      if decide (segment = "" ∨ segment = ".") then
        normalize_segments allowAboveRoot kept rest
      else if decide (segment = "..") then
        match kept with
        | top :: below =>
            if decide (top = "..") then
              normalize_segments allowAboveRoot (".." :: kept) rest
            else normalize_segments allowAboveRoot below rest
        | [] =>
            normalize_segments allowAboveRoot
              (if allowAboveRoot then [".."] else []) rest
        end
      else normalize_segments allowAboveRoot (segment :: kept) rest
  end.

Definition normalizeString (path : string) (allowAboveRoot : bool) : string :=
  join_with "/" (normalize_segments allowAboveRoot [] (split_on "/" path)).

Definition last_char (s : string) : option ascii := String.get (String.length s - 1) s.

(** [path.posix.normalize]. *)
Definition normalize (path : string) : string :=
  if decide (path = "") then "."
  else
    let isAbsolute := is_slash (String.get 0 path) in
    let trailingSeparator := is_slash (last_char path) in
    let normalized := normalizeString path (negb isAbsolute) in
    if decide (normalized = "") then
      if isAbsolute then "/" else if trailingSeparator then "./" else "."
    else
      let normalized := if trailingSeparator then normalized ++ "/" else normalized in
      if isAbsolute then "/" ++ normalized else normalized.

(** [path.posix.join] of two arguments. *)
Definition join (a b : string) : string :=
  match filter (λ s, s ≠ "") [a; b] with
  | [] => "."
  | pieces => normalize (join_with "/" pieces)
  end.

(** [path.posix.resolve] of one argument, in the working directory
    [cwd]. *)
Definition resolve (cwd path : string) : string :=
  let step (acc : string * bool) (p : string) : string * bool :=
    if acc.2 then acc
    else if decide (p = "") then acc
    else (p ++ "/" ++ acc.1, is_slash (String.get 0 p)) in
  let '(resolvedPath, resolvedAbsolute) := foldl step ("", false) [path; cwd] in
  let normalized := normalizeString resolvedPath (negb resolvedAbsolute) in
  if resolvedAbsolute then "/" ++ normalized
  else if decide (normalized = "") then "." else normalized.

(** One more than the length, except for ["."], the fixed point that
    [dirname] reaches from the empty path and from a bare file name. *)
Definition depth (path : string) : nat :=
  if decide (path = ".") then 0%nat else S (String.length path).

(** [isExternalModuleNameRelative] as [/^\.\.?($|[\\/])/]: the first term
    of the name is ["."] or [".."]. *)
Definition relative_first_term (moduleName : string) : bool :=
  let separator_or_end (rest : string) : bool :=
    match rest with
    | EmptyString => true
    | String c _ => bool_decide (c = "/"%char ∨ c = "\"%char)
    end in
  match moduleName with
  | String "." (String "." rest) => separator_or_end rest
  | String "." rest => separator_or_end rest
  | _ => false
  end.

(** The modules of Node that the package [builtin-modules] lists. *)
Definition node_builtins : list string :=
  ["assert"; "buffer"; "child_process"; "cluster"; "console"; "constants";
   "crypto"; "dgram"; "dns"; "domain"; "events"; "fs"; "http"; "https";
   "module"; "net"; "os"; "path"; "process"; "punycode"; "querystring";
   "readline"; "repl"; "stream"; "string_decoder"; "timers"; "tls"; "tty";
   "url"; "util"; "v8"; "vm"; "zlib"].

End Posix.

(** ** Manifests for the examples *)

Definition double_quote : string := String (ascii_of_nat 34) "".

(** [JSON.stringify], for values whose strings need no escape. *)
Fixpoint stringify (v : JsValue) : string :=
  match v with
  | JNull => "null"
  | JBool b => if b then "true" else "false"
  | JNumber literal => literal
  | JString s => double_quote ++ s ++ double_quote
  | JArray items => "[" ++ join_with "," (map stringify items) ++ "]"
  | JObject props =>
      "{" ++ join_with ","
               (map (λ kv, double_quote ++ kv.1 ++ double_quote ++ ":" ++ stringify kv.2)
                    props) ++ "}"
  end.

(** [JSON.parse] on the texts of a given list of values: a text is parsed
    to the value it is the [stringify] of; every other text is rejected. *)
Definition parse_among (known : list JsValue) (text : string) : option JsValue :=
  List.find (λ v, bool_decide (stringify v = text)) known.

(** A file system given by the list of its files; reading a path that is
    not a file, or whose content is [None], throws. *)
Definition files_of (files : list (string * option string)) : FileSystem :=
  {| existsSync := λ p, bool_decide (p ∈ files.*1);
     readFileSync := λ p, mjoin (assoc p files) |}.

(** ** [path.posix.dirname] reaches its fixed point *)

Lemma substring_0_length (n : nat) (s : string) :
  (n ≤ String.length s)%nat → String.length (String.substring 0 n s) = n.
Proof.
  revert s. induction n as [|n IH]; intros [|c s] Hn; simpl in *; try lia.
  rewrite IH; lia.
Qed.

Lemma dirname_scan_bounds (path : string) (i : nat) (matchedSlash : bool) (end_ : nat) :
  Posix.dirname_scan path i matchedSlash = Some end_ →
  (1 ≤ end_)%nat ∧ (if matchedSlash then end_ < i else end_ ≤ i)%nat.
Proof.
  revert matchedSlash. induction i as [|j IH]; intros m; simpl; [discriminate |].
  destruct (Posix.is_slash _).
  - destruct m.
    + intros Hscan. destruct (IH true Hscan). lia.
    + intros [= <-]. lia.
  - intros Hscan. destruct (IH false Hscan). destruct m; lia.
Qed.

Lemma posix_dirname_progress (p : string) :
  Posix.dirname p ≠ p → (Posix.depth (Posix.dirname p) < Posix.depth p)%nat.
Proof.
  unfold Posix.dirname. destruct (decide (p = "")) as [->|Hne].
  { intros _. vm_compute. lia. }
  destruct (Posix.dirname_scan p (String.length p - 1) true) as [end_|] eqn:Hscan.
  - apply dirname_scan_bounds in Hscan as [Hlo Hhi]. intros _.
    assert (Hp : p ≠ ".") by (intros ->; simpl in Hhi; lia).
    unfold Posix.depth at 2. rewrite decide_False by done.
    destruct (_ && _).
    + vm_compute Posix.depth. lia.
    + unfold Posix.depth. case_decide; [lia |].
      rewrite substring_0_length by lia. lia.
  - destruct p as [|c rest]; [done |]. simpl String.get. unfold Posix.is_slash.
    case_bool_decide as Hc.
    + injection Hc as ->. intros Hfix.
      destruct rest as [|d rest]; [done |].
      vm_compute Posix.depth at 1. unfold Posix.depth.
      rewrite decide_False by done. simpl. lia.
    + intros Hfix. unfold Posix.depth. rewrite decide_True by done.
      rewrite decide_False by done. lia.
Qed.

(** Node on POSIX, in the working directory [cwd], with [parse] for
    [JSON.parse]. *)
Definition node_posix (cwd : string) (parse : string → option JsValue) : Platform :=
  {| path_dirname := Posix.dirname;
     path_join := Posix.join;
     path_resolve := Posix.resolve cwd;
     path_depth := Posix.depth;
     path_dirname_progress := posix_dirname_progress;
     JSON_parse := parse;
     isExternalModuleNameRelative := Posix.relative_first_term;
     builtins := Posix.node_builtins |}.

(** * Properties *)

(** ** Package names *)

Lemma append_empty_r (s : string) : s ++ "" = s.
Proof.
  induction s as [|c s IH]; [reflexivity |].
  change (String c (s ++ "") = String c s). by rewrite IH.
Qed.

Lemma split_on_head (sep : ascii) (s : string) :
  ∃ piece pieces, split_on sep s = piece :: pieces.
Proof.
  induction s as [|c s (piece & pieces & IH)]; simpl; [by eauto |].
  case_decide; [by eauto |]. rewrite IH. by eauto.
Qed.

Lemma split_on_absent (sep : ascii) (s : string) :
  occurs sep s = false → split_on sep s = [s].
Proof.
  induction s as [|c s IH]; simpl; [done |].
  intros [Hc Hs]%orb_false_elim. apply bool_decide_eq_false in Hc.
  rewrite decide_False by done. by rewrite IH.
Qed.

Lemma split_on_present (sep : ascii) (s : string) :
  occurs sep s = true → ∃ first second pieces, split_on sep s = first :: second :: pieces.
Proof.
  induction s as [|c s IH]; simpl; [done |].
  case_decide as Hc.
  - intros _. destruct (split_on_head sep s) as (piece & pieces & ->). by eauto.
  - rewrite bool_decide_eq_false_2 by done. simpl.
    intros (first & second & pieces & ->)%IH. by eauto.
Qed.

(** Where the derivation of the code and the derivation the specification
    words agree: on every name that is not scoped, and on every scoped name
    with a ['/']. *)
Lemma getPackageName_agrees (name : string) :
  char_at_0 name ≠ Some "@"%char ∨ occurs "/" name = true →
  getPackageName name = spec_packageName name.
Proof.
  unfold getPackageName, spec_packageName. intros Hcase.
  destruct (decide (char_at_0 name = Some "@"%char)) as [Hat|Hat].
  - rewrite decide_False by (by intros ?).
    destruct Hcase as [?|Hslash]; [done |].
    by destruct (split_on_present _ _ Hslash) as (first & second & pieces & ->).
  - rewrite decide_True by done.
    by destruct (split_on_head "/" name) as (piece & pieces & ->).
Qed.

(** C3: the derivation of the code leaves the one the specification
    describes on a scoped name without ['/'].  The only segment of
    ["@scope"] is ["@scope"] itself, and joining the first two segments
    gives it back; [getPackageName] returns ["@scope/undefined"]. *)
Theorem getPackageName_bare_scope_differs :
  split_on "/" "@scope" = ["@scope"] ∧
  spec_packageName "@scope" = "@scope" ∧
  getPackageName "@scope" = "@scope/undefined" ∧
  getPackageName "@scope" ≠ spec_packageName "@scope".
Proof. repeat split; done. Qed.

(** C10: a name that starts with ['@'] and has no ['/'] derives the name
    followed by ["/undefined"], which is never the name itself: a manifest
    entry for the bare name does not match it. *)
Theorem getPackageName_scope_without_slash (name : string) :
  char_at_0 name = Some "@"%char →
  occurs "/" name = false →
  getPackageName name = name ++ "/undefined" ∧
  getPackageName name ≠ name ∧
  getPackageName name ∉ ({[name]} : gset string).
Proof.
  intros Hat Hslash.
  assert (Hname : getPackageName name = name ++ "/undefined").
  { unfold getPackageName. rewrite decide_False by (by intros ?).
    by rewrite split_on_absent. }
  assert (Hne : getPackageName name ≠ name).
  { rewrite Hname. rewrite <- (append_empty_r name) at 2.
    by intros ?%(inj (String.append name)). }
  repeat split; [done..|]. by rewrite elem_of_singleton.
Qed.

Lemma getPackageName_scope_without_slash_witness :
  getPackageName "@scope" = "@scope/undefined" ∧
  getPackageName "@scope" ≠ "@scope" ∧
  getPackageName "@scope" ∉ ({["@scope"]} : gset string).
Proof. apply (getPackageName_scope_without_slash "@scope"); reflexivity. Defined.

(** ** The search for the manifest *)

Section Search.
Context `{Platform}.
Variable fs : FileSystem.

(** Where the manifest of a directory would be. *)
Definition manifest_of (directory : string) : string :=
  path_join directory "package.json".

(** The directory, its parent, the parent of its parent, ..., as far as
    [path.dirname] makes progress, for at most [n] steps. *)
Fixpoint ancestors_within (n : nat) (directory : string) : list string :=
  directory ::
    match n with
    | O => []
    | S k =>
        if decide (path_dirname directory = directory) then []
        else ancestors_within k (path_dirname directory)
    end.

Definition ancestors (directory : string) : list string :=
  ancestors_within (path_depth directory) directory.

(** [l] lists [directory] and all its ancestors, up to the directory that
    is its own parent. *)
Inductive ancestor_chain : string → list string → Prop :=
| chain_root directory :
    path_dirname directory = directory →
    ancestor_chain directory [directory]
| chain_step directory l :
    path_dirname directory ≠ directory →
    ancestor_chain (path_dirname directory) l →
    ancestor_chain directory (directory :: l).

Definition has_manifest (directory : string) : Prop :=
  existsSync fs (manifest_of directory) = true.

Global Instance has_manifest_dec (directory : string) : Decision (has_manifest directory).
Proof. unfold has_manifest. apply _. Defined.

Lemma findPackageJson_step (current : string) :
  findPackageJson fs current =
  if existsSync fs (manifest_of current) then
    (Some (manifest_of current), [ExistsSync (manifest_of current)])
  else if decide (path_dirname current = current) then
    (None, [ExistsSync (manifest_of current)])
  else
    ((findPackageJson fs (path_dirname current)).1,
     ExistsSync (manifest_of current) :: (findPackageJson fs (path_dirname current)).2).
Proof.
  rewrite findPackageJson_equation_1. unfold manifest_of.
  destruct (existsSync fs _); simpl; [done |].
  by destruct (decide _).
Qed.

Lemma depth_0_fixed (directory : string) :
  path_depth directory = 0%nat → path_dirname directory = directory.
Proof.
  intros Hdepth. destruct (decide (path_dirname directory = directory)) as [|Hne]; [done |].
  apply path_dirname_progress in Hne. lia.
Qed.

Lemma ancestors_within_chain (n : nat) (directory : string) :
  (path_depth directory ≤ n)%nat →
  ancestor_chain directory (ancestors_within n directory).
Proof.
  revert directory. induction n as [|k IH]; intros directory Hdepth; simpl.
  - apply chain_root, depth_0_fixed. lia.
  - case_decide as Hfix; [by apply chain_root |].
    apply chain_step; [done |]. apply IH.
    apply path_dirname_progress in Hfix. lia.
Qed.

Lemma ancestors_within_length (n : nat) (directory : string) :
  (length (ancestors_within n directory) ≤ S n)%nat.
Proof.
  revert directory. induction n as [|k IH]; intros directory; simpl; [lia |].
  case_decide; simpl; [lia |]. specialize (IH (path_dirname directory)). lia.
Qed.

(** The loop is a search along the chain of ancestors. *)
Lemma findPackageJson_along_chain (directory : string) (l : list string) :
  ancestor_chain directory l →
  let hit := list_find has_manifest l in
  (findPackageJson fs directory).1 = (λ r, manifest_of r.2) <$> hit ∧
  (findPackageJson fs directory).2 =
    (λ d, ExistsSync (manifest_of d)) <$> take (from_option (S ∘ fst) (length l) hit) l.
Proof.
  induction 1 as [directory Hfix | directory l Hne _ [IHr IHt]];
    rewrite findPackageJson_step; simpl;
    (destruct (decide (has_manifest directory)) as [Hex|Hex];
     [rewrite Hex; by simpl
     |apply not_true_is_false in Hex; rewrite Hex]).
  - by rewrite (decide_True _ _ Hfix).
  - rewrite (decide_False _ _ Hne). simpl.
    rewrite IHr, IHt. by destruct (list_find has_manifest l) as [[i d]|].
Qed.

End Search.

(** ** The allowed set *)

(** The names a section of the manifest lists: the keys of the value of the
    property, none when the manifest has no such property. *)
Definition section_names (content : JsValue) (s : ManifestSection) : gset string :=
  match read_section content s with
  | Returned (Some deps) => list_to_set (enumerable_keys deps)
  | Returned None | Thrown => ∅
  end.

(** The allowed set in the words of the specification: the names of
    [dependencies], of [devDependencies] if [dev] is set and else of
    [peerDependencies], and of [optionalDependencies] if [optional] is
    set. *)
Definition spec_AllowedSet (content : JsValue) (options : Options) : gset string :=
  section_names content dependencies_section
  ∪ (if dev options then section_names content devDependencies_section
     else section_names content peerDependencies_section)
  ∪ (if optional options then section_names content optionalDependencies_section
     else ∅).

(** The sections [getDependencies] reads under [options]. *)
Definition selected (options : Options) (s : ManifestSection) : bool :=
  match s with
  | dependencies_section => true
  | devDependencies_section => dev options
  | peerDependencies_section => negb (dev options)
  | optionalDependencies_section => optional options
  end.

(** The value has an own property that hides [Object.prototype.hasOwnProperty]. *)
Definition shadows_hasOwnProperty (v : JsValue) : Prop :=
  match v with
  | JObject props => is_Some (own_property "hasOwnProperty" props)
  | _ => False
  end.

Lemma call_hasOwnProperty_enumerable (deps : JsValue) (name : string) :
  ¬ shadows_hasOwnProperty deps →
  name ∈ enumerable_keys deps →
  call_hasOwnProperty deps name = Returned true.
Proof.
  intros Hshadow Hname. destruct deps as [| | | |items|props]; simpl in *;
    try by apply elem_of_nil in Hname.
  - f_equal. apply bool_decide_eq_true. set_solver.
  - f_equal. apply bool_decide_eq_true. set_solver.
  - destruct (own_property "hasOwnProperty" props) eqn:Hown.
    + destruct Hshadow. by eauto.
    + f_equal. by apply bool_decide_eq_true.
Qed.

Lemma addDependencies_from_all (deps : JsValue) (names : list string) (result : gset string) :
  ¬ shadows_hasOwnProperty deps →
  names ⊆ enumerable_keys deps →
  addDependencies_from deps names result = (Returned (), list_to_set names ∪ result).
Proof.
  intros Hshadow. revert result.
  induction names as [|name names IH]; intros result Hnames; simpl.
  - unfold mret, Filling_ret. f_equal. set_solver.
  - unfold mbind, Filling_bind, evaluate.
    rewrite call_hasOwnProperty_enumerable by set_solver.
    unfold add. rewrite IH by set_solver. f_equal. set_solver.
Qed.

Lemma add_section_selected (guard : bool) (content : JsValue) (s : ManifestSection)
      (result : gset string) :
  content ≠ JNull →
  (∀ deps, guard = true → read_section content s = Returned (Some deps) →
           ¬ shadows_hasOwnProperty deps) →
  add_section guard content s result =
  (Returned (), (if guard then section_names content s else ∅) ∪ result).
Proof.
  intros Hnull Hshadow. unfold add_section, section_names. destruct guard.
  - unfold mbind, Filling_bind, evaluate.
    destruct (read_section content s) as [[deps|]|] eqn:Hread.
    + unfold addDependencies. by rewrite addDependencies_from_all by eauto.
    + unfold mret, Filling_ret. f_equal. set_solver.
    + by destruct content.
  - unfold mret, Filling_ret. f_equal. set_solver.
Qed.

Section Resolution.
Context `{Platform}.
Variable fs : FileSystem.

Lemma getDependencies_not_found (file : string) (options : Options) :
  (findPackageJson fs (path_resolve (path_dirname file))).1 = None →
  getDependencies fs file options =
  (∅, (findPackageJson fs (path_resolve (path_dirname file))).2).
Proof. unfold getDependencies. by intros ->. Qed.

Lemma getDependencies_found (file : string) (options : Options) (packageJsonPath : string) :
  (findPackageJson fs (path_resolve (path_dirname file))).1 = Some packageJsonPath →
  getDependencies fs file options =
  ((read_manifest fs options packageJsonPath ∅).2,
   ((findPackageJson fs (path_resolve (path_dirname file))).2
      ++ [ReadFileSync packageJsonPath])%list).
Proof. unfold getDependencies. by intros ->. Qed.

Lemma read_manifest_unreadable (options : Options) (p : string) (result : gset string) :
  (readFileSync fs p = None ∨
   ∃ raw, readFileSync fs p = Some raw ∧ JSON_parse (remove_byte_order_mark raw) = None) →
  read_manifest fs options p result = (Thrown, result).
Proof.
  unfold read_manifest, mbind, Filling_bind, or_throw.
  intros [-> | (raw & -> & ->)]; done.
Qed.

(** Where the code and the specification agree on the allowed set: on
    every manifest none of whose selected sections has a property called
    ["hasOwnProperty"]. *)
Lemma read_manifest_selected (options : Options) (p raw : string) (content : JsValue) :
  readFileSync fs p = Some raw →
  JSON_parse (remove_byte_order_mark raw) = Some content →
  (∀ s deps, selected options s = true →
             read_section content s = Returned (Some deps) →
             ¬ shadows_hasOwnProperty deps) →
  (read_manifest fs options p ∅).2 = spec_AllowedSet content options.
Proof.
  intros Hread Hparse Hshadow.
  unfold read_manifest, mbind, Filling_bind, or_throw. rewrite Hread, Hparse.
  assert (content = JNull ∨ content ≠ JNull) as [->|Hnull]
    by (destruct content; eauto).
  { unfold spec_AllowedSet, section_names. simpl. by destruct (dev _), (optional _). }
  rewrite !add_section_selected; try done.
  - unfold spec_AllowedSet. simpl. destruct (dev options), (optional options); set_solver.
  - intros deps Hguard. by apply Hshadow.
  - intros deps Hguard. by apply Hshadow.
  - intros deps Hguard. by apply Hshadow.
  - intros deps Hguard. by apply Hshadow.
Qed.

Lemma getDependencies_selected (file : string) (options : Options)
      (p raw : string) (content : JsValue) :
  (findPackageJson fs (path_resolve (path_dirname file))).1 = Some p →
  readFileSync fs p = Some raw →
  JSON_parse (remove_byte_order_mark raw) = Some content →
  (∀ s deps, selected options s = true →
             read_section content s = Returned (Some deps) →
             ¬ shadows_hasOwnProperty deps) →
  (getDependencies fs file options).1 = spec_AllowedSet content options.
Proof.
  intros Hfound Hread Hparse Hshadow.
  rewrite (getDependencies_found _ _ _ Hfound). simpl.
  by eapply read_manifest_selected.
Qed.

(** Where they part: as soon as the [dependencies] section has a property
    called ["hasOwnProperty"], nothing of the manifest is allowed. *)
Lemma read_manifest_shadowed (options : Options) (p raw : string) (content deps : JsValue) :
  readFileSync fs p = Some raw →
  JSON_parse (remove_byte_order_mark raw) = Some content →
  read_section content dependencies_section = Returned (Some deps) →
  shadows_hasOwnProperty deps →
  read_manifest fs options p ∅ = (Thrown, ∅).
Proof.
  intros Hread Hparse Hsection Hshadow.
  unfold read_manifest, mbind, Filling_bind, or_throw. rewrite Hread, Hparse.
  unfold add_section at 1. unfold mbind, Filling_bind, evaluate. rewrite Hsection.
  destruct deps as [| | | |items|props]; try done. simpl in Hshadow.
  destruct Hshadow as [v Hv]. unfold addDependencies. simpl.
  destruct props as [|[k w] props]; [done |]. simpl.
  unfold mbind, Filling_bind, evaluate. simpl. by rewrite Hv.
Qed.

End Resolution.

(** ** The classification *)

Section Classification.
Context `{Platform}.
Variable fs : FileSystem.
Variable sourceFile : SourceFile.
Variable options : Options.

(** The allowed set of the file. *)
Definition AllowedSet : gset string :=
  (getDependencies fs (fileName sourceFile) options).1.

(** What resolving the allowed set does to the file system. *)
Definition resolution_trace : list Event :=
  CallGetDependencies (fileName sourceFile)
    :: ((getDependencies fs (fileName sourceFile) options).2).

(** The reference reaches the decision on the allowed set and the ignore
    list. *)
Definition decided (name : Node) : Prop :=
  isExternalModuleNameRelative (text name) = false ∧
  getPackageName (text name) ∉ builtins.

(** The reference is one to report. *)
Definition reported (name : Node) : Prop :=
  decided name ∧
  (getPackageName (text name) ∉ AllowedSet) ∧
  (getPackageName (text name) ∉ ignore options).

Global Instance decided_dec (name : Node) : Decision (decided name).
Proof. unfold decided. apply _. Defined.

Global Instance reported_dec (name : Node) : Decision (reported name).
Proof. unfold reported. apply _. Defined.

(** The finding for a reference. *)
Definition finding (name : Node) : RuleFailure :=
  {| failure_node := name;
     failure_message := FAILURE_STRING_FACTORY (getPackageName (text name)) |}.

(** The state [walk] is in between two references: nothing is resolved
    and the file system was not touched, or the allowed set is in the
    variable and was resolved exactly once. *)
Definition consistent (st : WalkState) : Prop :=
  match dependencies st with
  | None => trace st = []
  | Some resolved => resolved = AllowedSet ∧ trace st = resolution_trace
  end.


Lemma visit_undecided (st : WalkState) (name : Node) :
  ¬ decided name → visit fs sourceFile options st name = st.
Proof.
  unfold decided, visit. intros Hdecided.
  destruct (isExternalModuleNameRelative (text name)); simpl; [done |].
  case_bool_decide; [|done]. destruct Hdecided. done.
Qed.

Lemma visit_decided (st : WalkState) (name : Node) :
  consistent st → decided name →
  let st' := visit fs sourceFile options st name in
  dependencies st' = Some AllowedSet ∧
  trace st' = resolution_trace ∧
  failures st' =
    (failures st ++ if decide (reported name) then [finding name] else [])%list.
Proof.
  unfold consistent. intros Hst Hdecided.
  assert (Hreported : reported name ↔
            ((getPackageName (text name) ∉ AllowedSet) ∧
             (getPackageName (text name) ∉ ignore options)))
    by (unfold reported; tauto).
  destruct Hdecided as [Hrelative Hbuiltin].
  unfold visit, shouldWarnAboutDependency.
  rewrite Hrelative. simpl. rewrite bool_decide_eq_true_2 by done.
  destruct (dependencies st) as [resolved|] eqn:Hmemo; simpl.
  - destruct Hst as [-> Htrace]. rewrite Hmemo. simpl.
    case_bool_decide as Hallowed; simpl.
    + rewrite Hmemo, decide_False by tauto. by rewrite app_nil_r.
    + case_bool_decide as Hignored; simpl.
      * rewrite Hmemo, decide_False by tauto. by rewrite app_nil_r.
      * by rewrite Hmemo, decide_True by tauto.
  - rewrite Hst. fold AllowedSet.
    case_bool_decide as Hallowed; simpl.
    + rewrite decide_False by tauto. by rewrite app_nil_r.
    + case_bool_decide as Hignored; simpl.
      * rewrite decide_False by tauto. by rewrite app_nil_r.
      * by rewrite decide_True by tauto.
Qed.

Lemma visit_consistent (st : WalkState) (name : Node) :
  consistent st → consistent (visit fs sourceFile options st name).
Proof.
  intros Hst. destruct (decide (decided name)) as [Hdecided|Hdecided].
  - destruct (visit_decided st name Hst Hdecided) as (Hmemo & Htrace & _).
    unfold consistent. by rewrite Hmemo.
  - by rewrite visit_undecided.
Qed.

Lemma visit_failures (st : WalkState) (name : Node) :
  consistent st →
  failures (visit fs sourceFile options st name) =
  (failures st ++ if decide (reported name) then [finding name] else [])%list.
Proof.
  intros Hst. destruct (decide (decided name)) as [Hdecided|Hdecided].
  - by apply visit_decided.
  - rewrite visit_undecided by done.
    rewrite decide_False by (unfold reported; tauto). by rewrite app_nil_r.
Qed.

Lemma foldl_visit_consistent (st : WalkState) (names : list Node) :
  consistent st → consistent (foldl (visit fs sourceFile options) st names).
Proof.
  revert st. induction names as [|name names IH]; intros st Hst; simpl; [done |].
  by apply IH, visit_consistent.
Qed.

Lemma foldl_visit_failures (st : WalkState) (names : list Node) :
  consistent st →
  failures (foldl (visit fs sourceFile options) st names) =
  (failures st ++ (finding <$> filter reported names))%list.
Proof.
  revert st. induction names as [|name names IH]; intros st Hst; simpl.
  - by rewrite app_nil_r.
  - rewrite IH by by apply visit_consistent.
    rewrite visit_failures by done. rewrite filter_cons.
    destruct (decide (reported name)); simpl.
    + by rewrite <- app_assoc.
    + by rewrite app_nil_r.
Qed.

Lemma foldl_visit_resolved (st : WalkState) (names : list Node) (resolved : gset string) :
  consistent st →
  dependencies st = Some resolved →
  dependencies (foldl (visit fs sourceFile options) st names) = Some resolved ∧
  trace (foldl (visit fs sourceFile options) st names) = trace st.
Proof.
  intros Hst Hmemo.
  assert (resolved = AllowedSet ∧ trace st = resolution_trace) as [-> ->]
    by (unfold consistent in Hst; by rewrite Hmemo in Hst).
  revert st Hst Hmemo.
  induction names as [|name names IH]; intros st Hst Hmemo; simpl.
  - unfold consistent in Hst. rewrite Hmemo in Hst. by destruct Hst.
  - destruct (decide (decided name)) as [Hdecided|Hdecided].
    + destruct (visit_decided st name Hst Hdecided) as (Hmemo' & _).
      apply IH; [by apply visit_consistent | done].
    + rewrite visit_undecided by done. by apply IH.
Qed.

Lemma initial_consistent : consistent initial_state.
Proof. done. Qed.

End Classification.

(** ** Examples: a project under [/home/u/proj] *)

Definition manifest_full : JsValue :=
  JObject
    [("name", JString "proj");
     ("dependencies",
       JObject [("lodash", JString "4.17.4"); ("@myorg/utils", JString "1.0.0")]);
     ("devDependencies", JObject [("chai", JString "4.1.2")]);
     ("peerDependencies", JObject [("react", JString "16.0.0")]);
     ("optionalDependencies", JObject [("fsevents", JString "1.1.2")])].

Definition manifest_shadowing : JsValue :=
  JObject
    [("dependencies",
       JObject [("hasOwnProperty", JString "1.0.0"); ("lodash", JString "4.17.4")])].

Definition manifest_empty_name : JsValue :=
  JObject [("dependencies", JObject [("", JString "1.0.0")])].

Definition node_in_home : Platform :=
  node_posix "/home/u" (parse_among [manifest_full; manifest_shadowing; manifest_empty_name]).

(** The project with a manifest of the given content; [None] is a
    [package.json] that exists and cannot be read. *)
Definition project (content : option string) : FileSystem :=
  files_of [("/home/u/proj/package.json", content)].

Definition no_manifest : FileSystem := files_of [].

Definition import_of (module : string) (at_ : nat) : Node :=
  {| text := module; pos := at_; width := String.length module + 2 |}.

Definition source (modules : list Node) : SourceFile :=
  {| fileName := "proj/src/index.ts"; findImports := modules |}.

Definition default_options : Options := parseOptions None.

Definition dev_options : Options :=
  parseOptions (Some {| given_dev := Some true; given_optional := None; given_ignore := None |}).

Example scenario_listed :
  failures (walk (H := node_in_home) (project (Some (stringify manifest_full)))
              (source [import_of "lodash" 7; import_of "@myorg/utils/helpers" 30])
              default_options) = [].
Proof. vm_compute. reflexivity. Qed.

Example scenario_builtin_without_manifest :
  failures (walk (H := node_in_home) no_manifest (source [import_of "fs" 7]) default_options)
  = [].
Proof. vm_compute. reflexivity. Qed.

Example scenario_dev :
  failures (walk (H := node_in_home) (project (Some (stringify manifest_full)))
              (source [import_of "chai" 7]) dev_options) = [] ∧
  failures (walk (H := node_in_home) (project (Some (stringify manifest_full)))
              (source [import_of "chai" 7]) default_options)
  = [finding (import_of "chai" 7)].
Proof. split; vm_compute; reflexivity. Qed.

Example scenario_twice :
  failures (walk (H := node_in_home) (project (Some (stringify manifest_full)))
              (source [import_of "left-pad" 7; import_of "./local" 30; import_of "left-pad" 50])
              default_options)
  = [{| failure_node := import_of "left-pad" 7;
        failure_message := "Module 'left-pad' is not listed as dependency in package.json" |};
     {| failure_node := import_of "left-pad" 50;
        failure_message := "Module 'left-pad' is not listed as dependency in package.json" |}].
Proof. vm_compute. reflexivity. Qed.

Example scenario_byte_order_mark :
  (getDependencies (H := node_in_home)
     (project (Some (byte_order_mark ++ stringify manifest_full)))
     "proj/src/index.ts" default_options).1
  = (getDependencies (H := node_in_home)
       (project (Some (stringify manifest_full))) "proj/src/index.ts" default_options).1.
Proof. vm_compute. reflexivity. Qed.

Example scenario_ignored_empty_name :
  failures (walk (H := node_in_home) (project (Some (stringify manifest_full)))
              (source [import_of "" 7])
              {| dev := false; optional := false; ignore := [""] |}) = [].
Proof. vm_compute. reflexivity. Qed.

(** ** The claims about the resolver *)

(** C2: under a manifest whose [dependencies] section has an entry called
    ["hasOwnProperty"], the allowed set is empty, though the names of the
    section are ["hasOwnProperty"] and ["lodash"]: the first call of
    [dependencies.hasOwnProperty] throws, and the [catch] clause swallows
    the error together with the rest of the manifest. *)
Theorem getDependencies_shadowed_hasOwnProperty :
  let fs := project (Some (stringify manifest_shadowing)) in
  (findPackageJson (H := node_in_home) fs "/home/u/proj/src").1
    = Some "/home/u/proj/package.json" ∧
  JSON_parse (Platform := node_in_home) (stringify manifest_shadowing)
    = Some manifest_shadowing ∧
  spec_AllowedSet manifest_shadowing default_options = {["hasOwnProperty"; "lodash"]} ∧
  (getDependencies (H := node_in_home) fs "proj/src/index.ts" default_options).1 = ∅ ∧
  failures (walk (H := node_in_home) fs (source [import_of "lodash" 7]) default_options)
    = [finding (import_of "lodash" 7)].
Proof. repeat split; vm_compute; reflexivity. Qed.

(** C4: when the manifest that was found cannot be read, or its text
    cannot be parsed, the allowed set is empty, as it is when no manifest
    is found. *)
Theorem getDependencies_unreadable_manifest `{Platform}
    (fs : FileSystem) (file : string) (options : Options) (packageJsonPath : string) :
  (findPackageJson fs (path_resolve (path_dirname file))).1 = Some packageJsonPath →
  (readFileSync fs packageJsonPath = None ∨
   ∃ raw, readFileSync fs packageJsonPath = Some raw ∧
          JSON_parse (remove_byte_order_mark raw) = None) →
  (getDependencies fs file options).1 = ∅ ∧
  ∀ fs' : FileSystem,
    (findPackageJson fs' (path_resolve (path_dirname file))).1 = None →
    (getDependencies fs file options).1 = (getDependencies fs' file options).1.
Proof.
  intros Hfound Hfails.
  assert (Hempty : (getDependencies fs file options).1 = ∅).
  { rewrite (getDependencies_found _ _ _ _ Hfound). simpl.
    by rewrite read_manifest_unreadable. }
  split; [done |]. intros fs' Hmissing.
  by rewrite Hempty, getDependencies_not_found.
Qed.

Lemma getDependencies_unreadable_manifest_witness :
  (getDependencies (H := node_in_home) (project (Some "{")) "proj/src/index.ts"
     default_options).1 = ∅ ∧
  (getDependencies (H := node_in_home) (project None) "proj/src/index.ts"
     dev_options).1 = ∅.
Proof.
  split.
  - apply (getDependencies_unreadable_manifest (H := node_in_home)
             (project (Some "{")) "proj/src/index.ts" default_options
             "/home/u/proj/package.json"); [reflexivity |].
    right. exists "{". split; reflexivity.
  - apply (getDependencies_unreadable_manifest (H := node_in_home)
             (project None) "proj/src/index.ts" dev_options
             "/home/u/proj/package.json"); [reflexivity |].
    left. reflexivity.
Defined.

(** C5: the search goes through the directory and its ancestors, a finite
    chain that ends at the directory that is its own parent; it asks for
    the manifest of each in turn, returns the first that exists and asks
    no further, and returns [undefined] after the last.  With no manifest
    the allowed set is empty. *)
Theorem findPackageJson_walks_up `{Platform} (fs : FileSystem) (start : string) :
  let visited := ancestors start in
  let hit := list_find (has_manifest fs) visited in
  ancestor_chain start visited ∧
  (length visited ≤ S (path_depth start))%nat ∧
  (findPackageJson fs start).1 = (λ r, manifest_of r.2) <$> hit ∧
  (findPackageJson fs start).2 =
    (λ d, ExistsSync (manifest_of d))
      <$> take (from_option (S ∘ fst) (length visited) hit) visited ∧
  ∀ (file : string) (options : Options),
    (findPackageJson fs (path_resolve (path_dirname file))).1 = None →
    (getDependencies fs file options).1 = ∅.
Proof.
  intros visited hit.
  assert (Hchain : ancestor_chain start visited)
    by by apply ancestors_within_chain.
  destruct (findPackageJson_along_chain fs start visited Hchain) as [Hresult Htrace].
  repeat split; [done | apply ancestors_within_length | done | done |].
  intros file options Hmissing. by rewrite getDependencies_not_found.
Qed.

Lemma findPackageJson_walks_up_witness :
  ancestors (H := node_in_home) "/home/u/proj/src"
    = ["/home/u/proj/src"; "/home/u/proj"; "/home/u"; "/home"; "/"] ∧
  findPackageJson (H := node_in_home) no_manifest "/home/u/proj/src"
    = (None,
       [ExistsSync "/home/u/proj/src/package.json"; ExistsSync "/home/u/proj/package.json";
        ExistsSync "/home/u/package.json"; ExistsSync "/home/package.json";
        ExistsSync "/package.json"]) ∧
  (getDependencies (H := node_in_home) no_manifest "proj/src/index.ts" default_options).1
    = ∅.
Proof.
  split; [reflexivity |]. split; [reflexivity |].
  apply (findPackageJson_walks_up (H := node_in_home) no_manifest "/home/u/proj/src").
  reflexivity.
Defined.

(** ** Counting what a run does *)

Lemma count_events_app (p : Event → bool) (t1 t2 : list Event) :
  count_events p (t1 ++ t2) = (count_events p t1 + count_events p t2)%nat.
Proof. unfold count_events. by rewrite filter_app, length_app. Qed.

Lemma count_events_probes (p : Event → bool) (f : string → string) (l : list string) :
  (∀ q, p (ExistsSync q) = false) →
  count_events p ((λ d, ExistsSync (f d)) <$> l) = 0%nat.
Proof.
  intros Hp. unfold count_events. induction l as [|d l IH]; simpl; [done |].
  rewrite filter_cons, decide_False; [done |]. by rewrite Hp.
Qed.

Lemma findPackageJson_only_probes `{Platform} (fs : FileSystem) (p : Event → bool)
      (start : string) :
  (∀ q, p (ExistsSync q) = false) →
  count_events p (findPackageJson fs start).2 = 0%nat.
Proof.
  intros Hp.
  destruct (findPackageJson_along_chain fs start (ancestors start)) as [_ ->];
    [by apply ancestors_within_chain |].
  by apply count_events_probes.
Qed.

Lemma getDependencies_counts `{Platform} (fs : FileSystem) (file : string) (options : Options) :
  count_events is_resolution (getDependencies fs file options).2 = 0%nat ∧
  (count_events is_read (getDependencies fs file options).2 ≤ 1)%nat.
Proof.
  unfold getDependencies.
  destruct (findPackageJson fs (path_resolve (path_dirname file))).1; simpl;
    rewrite ?count_events_app, !findPackageJson_only_probes by done;
    split; by (done || (vm_compute; lia)).
Qed.

Section Claims.
Context `{Platform}.
Variable fs : FileSystem.
Variable sourceFile : SourceFile.
Variable options : Options.


Lemma walk_failures :
  failures (walk fs sourceFile options)
  = finding <$> filter (reported fs sourceFile options) (findImports sourceFile).
Proof.
  unfold walk. rewrite foldl_visit_failures by apply initial_consistent.
  done.
Qed.

Lemma elem_of_walk_failures (f : RuleFailure) :
  f ∈ failures (walk fs sourceFile options) ↔
  ∃ name,
    f = finding name ∧ name ∈ findImports sourceFile ∧ reported fs sourceFile options name.
Proof.
  rewrite walk_failures, list_elem_of_fmap.
  split; intros (name & -> & Hname); exists name; split; try done.
  - by apply list_elem_of_filter in Hname as [? ?].
  - apply list_elem_of_filter. tauto.
Qed.

Lemma foldl_visit_decides (st : WalkState) (names : list Node) :
  consistent fs sourceFile options st →
  Exists decided names →
  dependencies (foldl (visit fs sourceFile options) st names)
  = Some (AllowedSet fs sourceFile options).
Proof.
  intros Hst Hdecided. revert st Hst.
  induction Hdecided as [name names Hname | name names _ IH]; intros st Hst; simpl.
  - destruct (visit_decided fs sourceFile options st name Hst Hname) as (Hmemo & _).
    by apply foldl_visit_resolved; [apply visit_consistent |].
  - by apply IH, visit_consistent.
Qed.

(** C1: the findings of a run are the findings of the references to
    report, one for each occurrence, in the order of the references.  A
    reference is one to report when it is not relative and its package
    name is neither built in, nor in the allowed set, nor ignored; its
    finding stands at the reference and names the package. *)
Theorem walk_reports :
  failures (walk fs sourceFile options)
  = finding <$> filter (reported fs sourceFile options) (findImports sourceFile) ∧
  (∀ name,
     reported fs sourceFile options name ↔
     isExternalModuleNameRelative (text name) = false ∧
     (getPackageName (text name) ∉ builtins) ∧
     (getPackageName (text name) ∉ (getDependencies fs (fileName sourceFile) options).1) ∧
     (getPackageName (text name) ∉ ignore options)) ∧
  (∀ name,
     finding name =
     {| failure_node := name;
        failure_message :=
          "Module '" ++ getPackageName (text name)
            ++ "' is not listed as dependency in package.json" |}).
Proof.
  split; [apply walk_failures |]. split; [|done].
  intros name. unfold reported, decided, AllowedSet. tauto.
Qed.

(** C6: a run enters [getDependencies] at most once and reads at most one
    file, however many references it decides; it enters it exactly once
    when there is a reference to decide; and once the set is in the
    variable, the rest of the run leaves the variable and the file system
    alone. *)
Theorem walk_resolves_once :
  (count_events is_resolution (trace (walk fs sourceFile options)) ≤ 1)%nat ∧
  (count_events is_read (trace (walk fs sourceFile options)) ≤ 1)%nat ∧
  (Exists decided (findImports sourceFile) →
   count_events is_resolution (trace (walk fs sourceFile options)) = 1%nat ∧
   dependencies (walk fs sourceFile options) = Some (AllowedSet fs sourceFile options)) ∧
  ∀ (before after : list Node) (resolved : gset string),
    findImports sourceFile = (before ++ after)%list →
    dependencies (foldl (visit fs sourceFile options) initial_state before) = Some resolved →
    dependencies (walk fs sourceFile options) = Some resolved ∧
    trace (walk fs sourceFile options)
    = trace (foldl (visit fs sourceFile options) initial_state before).
Proof.
  pose proof (foldl_visit_consistent fs sourceFile options initial_state
                (findImports sourceFile) (initial_consistent _ _ _)) as Hend.
  fold (walk fs sourceFile options) in Hend. unfold consistent in Hend.
  destruct (getDependencies_counts fs (fileName sourceFile) options) as [Hres Hread].
  assert (Hcount : count_events is_resolution (resolution_trace fs sourceFile options) = 1%nat).
  { unfold resolution_trace.
    change (CallGetDependencies ?f :: ?t) with ([CallGetDependencies f] ++ t)%list.
    rewrite count_events_app, Hres. done. }
  assert (Hreads : (count_events is_read (resolution_trace fs sourceFile options) ≤ 1)%nat).
  { unfold resolution_trace.
    change (CallGetDependencies ?f :: ?t) with ([CallGetDependencies f] ++ t)%list.
    rewrite count_events_app. change (count_events is_read [_]) with 0%nat. lia. }
  split; [|split; [|split]].
  - destruct (dependencies (walk fs sourceFile options));
      [destruct Hend as [_ ->]; lia | rewrite Hend].
    vm_compute. lia.
  - destruct (dependencies (walk fs sourceFile options));
      [by destruct Hend as [_ ->] | rewrite Hend].
    vm_compute. lia.
  - intros Hdecided.
    pose proof (foldl_visit_decides initial_state _ (initial_consistent _ _ _) Hdecided)
      as Hmemo.
    fold (walk fs sourceFile options) in Hmemo. rewrite Hmemo in Hend.
    destruct Hend as [_ ->]. done.
  - intros before after resolved Hsplit Hmemo.
    unfold walk. rewrite Hsplit, foldl_app.
    by apply foldl_visit_resolved; [apply foldl_visit_consistent, initial_consistent |].
Qed.

(** C7: a reference whose package name is built in changes nothing in the
    state of a run, whatever the state, and no finding of the run stands
    at it. *)
Theorem builtin_never_reported (name : Node) :
  getPackageName (text name) ∈ builtins →
  (∀ st, visit fs sourceFile options st name = st) ∧
  ∀ f, f ∈ failures (walk fs sourceFile options) → failure_node f ≠ name.
Proof.
  intros Hbuiltin. split.
  - intros st. apply visit_undecided. by intros [_ ?].
  - intros f (name' & -> & _ & [_ Hdecided] & _)%elem_of_walk_failures.
    simpl. by intros ->.
Qed.

(** C8: a relative reference changes nothing in the state of a run,
    whatever the state, and no finding of the run stands at it. *)
Theorem relative_never_reported (name : Node) :
  isExternalModuleNameRelative (text name) = true →
  (∀ st, visit fs sourceFile options st name = st) ∧
  ∀ f, f ∈ failures (walk fs sourceFile options) → failure_node f ≠ name.
Proof.
  intros Hrelative. split.
  - intros st. apply visit_undecided. intros [Hexternal _]. congruence.
  - intros f (name' & -> & _ & [Hexternal _] & _)%elem_of_walk_failures.
    simpl. intros ->. congruence.
Qed.

(** C9, amended: the empty text derives the empty package name.  When
    the empty text is not relative and the empty name is not built in,
    the reference is reported if and only if neither the allowed set nor
    the ignore list has the empty name. *)
Theorem empty_text_reported (name : Node) :
  text name = "" →
  name ∈ findImports sourceFile →
  isExternalModuleNameRelative "" = false →
  "" ∉ builtins →
  getPackageName (text name) = "" ∧
  finding name =
    {| failure_node := name;
       failure_message := "Module '' is not listed as dependency in package.json" |} ∧
  (finding name ∈ failures (walk fs sourceFile options) ↔
   ("" ∉ AllowedSet fs sourceFile options) ∧ ("" ∉ ignore options)).
Proof.
  intros Htext Hname Hrelative Hbuiltin.
  assert (Hpackage : getPackageName (text name) = "") by by rewrite Htext.
  split; [done |]. split; [unfold finding; by rewrite Hpackage |].
  rewrite elem_of_walk_failures. unfold reported, decided. split.
  - intros (name' & [= <-] & _ & _ & Hallowed & Hignored).
    by rewrite Hpackage in Hallowed, Hignored.
  - intros [Hallowed Hignored]. exists name. rewrite Hpackage, Htext. done.
Qed.

End Claims.

(** ** The claims on the project of the examples *)

Definition sample_source : SourceFile :=
  source [import_of "lodash/fp" 7; import_of "fs" 30; import_of "./local" 50;
          import_of "left-pad" 70; import_of "left-pad" 90; import_of "" 110].

Lemma walk_reports_witness :
  failures (walk (H := node_in_home) (project (Some (stringify manifest_full)))
              sample_source default_options)
  = [finding (import_of "left-pad" 70); finding (import_of "left-pad" 90);
     finding (import_of "" 110)].
Proof.
  rewrite (proj1 (walk_reports (H := node_in_home)
                    (project (Some (stringify manifest_full)))
                    sample_source default_options)).
  vm_compute. reflexivity.
Defined.

Lemma walk_resolves_once_witness :
  let final := walk (H := node_in_home) (project (Some (stringify manifest_full)))
                 sample_source default_options in
  count_events is_resolution (trace final) = 1%nat ∧
  count_events is_read (trace final) = 1%nat ∧
  length (filter (decided (H := node_in_home)) (findImports sample_source)) = 4%nat.
Proof.
  split; [|split; reflexivity].
  apply (walk_resolves_once (H := node_in_home)
           (project (Some (stringify manifest_full))) sample_source default_options).
  apply Exists_cons_hd. split; [reflexivity |].
  apply (bool_decide_unpack _). vm_compute. exact I.
Defined.

Lemma builtin_never_reported_witness :
  visit (H := node_in_home) (project (Some (stringify manifest_full))) sample_source
    default_options initial_state (import_of "fs" 30) = initial_state ∧
  Forall (λ f, failure_node f ≠ import_of "fs" 30)
    (failures (walk (H := node_in_home) (project (Some (stringify manifest_full)))
                 sample_source default_options)).
Proof.
  destruct (builtin_never_reported (H := node_in_home)
              (project (Some (stringify manifest_full))) sample_source default_options
              (import_of "fs" 30)) as [Hstate Hfailures].
  - apply (bool_decide_unpack _). vm_compute. exact I.
  - split; [apply Hstate | apply Forall_forall, Hfailures].
Defined.

Lemma relative_never_reported_witness :
  visit (H := node_in_home) (project (Some (stringify manifest_full))) sample_source
    default_options initial_state (import_of "./local" 50) = initial_state ∧
  Forall (λ f, failure_node f ≠ import_of "./local" 50)
    (failures (walk (H := node_in_home) (project (Some (stringify manifest_full)))
                 sample_source default_options)).
Proof.
  destruct (relative_never_reported (H := node_in_home)
              (project (Some (stringify manifest_full))) sample_source default_options
              (import_of "./local" 50)) as [Hstate Hfailures].
  - reflexivity.
  - split; [apply Hstate | apply Forall_forall, Hfailures].
Defined.

Lemma empty_text_reported_witness :
  finding (import_of "" 110)
    ∈ failures (walk (H := node_in_home) (project (Some (stringify manifest_full)))
                  sample_source default_options).
Proof.
  apply (empty_text_reported (H := node_in_home)
           (project (Some (stringify manifest_full))) sample_source default_options
           (import_of "" 110)).
  - reflexivity.
  - apply (bool_decide_unpack _). vm_compute. exact I.
  - reflexivity.
  - apply (bool_decide_unpack _). vm_compute. exact I.
  - split; apply (bool_decide_unpack _); vm_compute; exact I.
Defined.

(** C9 as it stands fails: a manifest can list the empty name, and then
    the reference with the empty text is in the allowed set and is not
    reported. *)
Lemma empty_text_listed_not_reported :
  let fs := project (Some (stringify manifest_empty_name)) in
  let file := source [import_of "" 7] in
  getPackageName (text (import_of "" 7)) = "" ∧
  getPackageName (text (import_of "" 7))
    ∈ AllowedSet (H := node_in_home) fs file default_options ∧
  failures (walk (H := node_in_home) fs file default_options) = [] ∧
  ¬ ((getPackageName "" ∉ AllowedSet (H := node_in_home) fs file default_options) ∧
     finding (import_of "" 7)
       ∈ failures (walk (H := node_in_home) fs file default_options)).
Proof.
  intros fs file.
  assert (Hlisted : getPackageName "" ∈ AllowedSet (H := node_in_home) fs file default_options)
    by (apply (bool_decide_unpack _); vm_compute; exact I).
  split; [reflexivity |]. split; [exact Hlisted |].
  split; [vm_compute; reflexivity |]. by intros [Hallowed _].
Qed.

(** * Further properties *)

(** ** More on package names *)

Lemma append_length (a b : string) :
  String.length (a ++ b) = (String.length a + String.length b)%nat.
Proof.
  induction a as [|c a IH]; [reflexivity |].
  change (S (String.length (a ++ b)) = S (String.length a + String.length b)).
  by rewrite IH.
Qed.

Lemma append_cancel_r (a b s : string) : a ++ s = b ++ s → a = b.
Proof.
  revert b. induction a as [|c a IH]; intros [|d b] Heq.
  - reflexivity.
  - apply (f_equal String.length) in Heq. rewrite !append_length in Heq.
    simpl in Heq. lia.
  - apply (f_equal String.length) in Heq. rewrite !append_length in Heq.
    simpl in Heq. lia.
  - change (String c (a ++ s) = String d (b ++ s)) in Heq.
    injection Heq as -> Heq. f_equal. by apply IH.
Qed.

Lemma occurs_append (c : ascii) (a b : string) :
  occurs c (a ++ b) = occurs c a || occurs c b.
Proof.
  induction a as [|d a IH]; [reflexivity |].
  change (bool_decide (d = c) || occurs c (a ++ b)
          = bool_decide (d = c) || occurs c a || occurs c b).
  rewrite IH. by destruct (bool_decide (d = c)), (occurs c a).
Qed.

Lemma char_at_0_append (a b : string) :
  a ≠ "" → char_at_0 (a ++ b) = char_at_0 a.
Proof. by destruct a. Qed.

(** The pieces of a split hold no separator. *)
Lemma split_on_pieces (sep : ascii) (s : string) :
  Forall (λ piece, occurs sep piece = false) (split_on sep s).
Proof.
  induction s as [|c s IH]; simpl; [by repeat constructor |].
  case_decide as Hc; [by constructor |].
  destruct (split_on_head sep s) as (piece & pieces & Hsplit).
  rewrite Hsplit in IH |- *.
  apply Forall_cons in IH as [Hpiece Hpieces]. constructor; [|done].
  simpl. by rewrite Hpiece, bool_decide_eq_false_2.
Qed.

(** Splitting after a piece without separator. *)
Lemma split_on_append (sep : ascii) (a b : string) :
  occurs sep a = false →
  split_on sep (a ++ String sep b) = a :: split_on sep b.
Proof.
  induction a as [|c a IH]; intros Ha.
  - change (split_on sep (String sep b) = "" :: split_on sep b).
    simpl. by rewrite decide_True.
  - simpl in Ha. apply orb_false_elim in Ha as [Hc Ha].
    apply bool_decide_eq_false in Hc.
    change (split_on sep (String c (a ++ String sep b)) = String c a :: split_on sep b).
    simpl. rewrite decide_False by done. by rewrite IH.
Qed.

(** The first piece starts as the text does. *)
Lemma split_on_first_char (sep : ascii) (s piece : string) (pieces : list string) :
  split_on sep s = piece :: pieces → piece ≠ "" → char_at_0 piece = char_at_0 s.
Proof.
  destruct s as [|c s]; simpl; [by intros [= <- <-] |].
  case_decide; [by intros [= <- <-] |].
  destruct (split_on sep s); by intros [= <- <-].
Qed.

Lemma getPackageName_plain (name : string) :
  char_at_0 name ≠ Some "@"%char → occurs "/" name = false →
  getPackageName name = name.
Proof.
  intros Hat Hslash. unfold getPackageName.
  rewrite decide_True by done. by rewrite split_on_absent.
Qed.

Lemma getPackageName_two_pieces (scope rest : string) :
  char_at_0 scope = Some "@"%char → occurs "/" scope = false →
  getPackageName (scope ++ "/" ++ rest)
  = scope ++ "/" ++ template (split_on "/" rest !! 0%nat).
Proof.
  intros Hat Hslash. unfold getPackageName.
  rewrite char_at_0_append by (by destruct scope).
  rewrite decide_False by (by intros ?).
  change (scope ++ "/" ++ rest) with (scope ++ String "/" rest).
  by rewrite split_on_append.
Qed.

(** X1: deriving the package name of a derived package name changes
    nothing. *)
Theorem getPackageName_idempotent (name : string) :
  getPackageName (getPackageName name) = getPackageName name.
Proof.
  destruct (decide (char_at_0 name = Some "@"%char)) as [Hat|Hat].
  - assert (Hname : ∃ scope pieces,
              split_on "/" name = scope :: pieces ∧
              char_at_0 scope = Some "@"%char ∧ occurs "/" scope = false).
    { destruct (split_on_head "/" name) as (scope & pieces & Hsplit).
      pose proof (split_on_pieces "/" name) as Hclean. rewrite Hsplit in Hclean.
      apply Forall_cons in Hclean as [Hscope _].
      exists scope, pieces. repeat split; [done | | done].
      destruct name as [|c name]; [done |]. injection Hat as ->.
      simpl in Hsplit.
      destruct (split_on "/" name); by injection Hsplit as <- <-. }
    destruct Hname as (scope & pieces & Hsplit & Hscope & Hclean).
    assert (Hsecond : ∃ second, template (pieces !! 0%nat) = second ∧
                                occurs "/" second = false).
    { pose proof (split_on_pieces "/" name) as Hall. rewrite Hsplit in Hall.
      apply Forall_cons in Hall as [_ Hall].
      destruct pieces as [|second pieces]; simpl; [by eauto |].
      apply Forall_cons in Hall as [Hsecond _]. by eauto. }
    destruct Hsecond as (second & Hsecond & Hclean').
    assert (Hderived : getPackageName name = scope ++ "/" ++ second).
    { unfold getPackageName. rewrite decide_False by (by intros ?).
      rewrite Hsplit. simpl. by rewrite Hsecond. }
    rewrite Hderived, getPackageName_two_pieces by done.
    by rewrite split_on_absent.
  - destruct (split_on_head "/" name) as (piece & pieces & Hsplit).
    pose proof (split_on_pieces "/" name) as Hclean. rewrite Hsplit in Hclean.
    apply Forall_cons in Hclean as [Hpiece _].
    assert (Hderived : getPackageName name = piece).
    { unfold getPackageName. rewrite decide_True by done. by rewrite Hsplit. }
    rewrite Hderived. apply getPackageName_plain; [|done].
    destruct (decide (piece = "")) as [->|Hne]; [done |].
    by rewrite (split_on_first_char _ _ _ _ Hsplit Hne).
Qed.

(** X2: whatever path follows an unscoped package name, the text derives
    the package name; so does the package name alone. *)
Theorem getPackageName_unscoped_subpath (package subpath : string) :
  char_at_0 package ≠ Some "@"%char →
  occurs "/" package = false →
  getPackageName package = package ∧
  getPackageName (package ++ "/" ++ subpath) = package.
Proof.
  intros Hat Hslash. split; [by apply getPackageName_plain |].
  unfold getPackageName.
  assert (Hfirst : char_at_0 (package ++ "/" ++ subpath) ≠ Some "@"%char).
  { destruct package; [done |]. by rewrite char_at_0_append. }
  rewrite decide_True by done.
  change (package ++ "/" ++ subpath) with (package ++ String "/" subpath).
  by rewrite split_on_append.
Qed.

Lemma getPackageName_unscoped_subpath_witness :
  getPackageName "lodash" = "lodash" ∧
  getPackageName ("lodash" ++ "/" ++ "fp/map") = "lodash".
Proof. apply (getPackageName_unscoped_subpath "lodash" "fp/map"); [done | reflexivity]. Defined.

(** X3: whatever path follows a scoped package name [@scope/name], the
    text derives the package name; so does the package name alone. *)
Theorem getPackageName_scoped_subpath (scope name subpath : string) :
  char_at_0 scope = Some "@"%char →
  occurs "/" scope = false →
  occurs "/" name = false →
  getPackageName (scope ++ "/" ++ name) = scope ++ "/" ++ name ∧
  getPackageName (scope ++ "/" ++ name ++ "/" ++ subpath) = scope ++ "/" ++ name.
Proof.
  intros Hat Hscope Hname. rewrite !getPackageName_two_pieces by done. split.
  - by rewrite split_on_absent.
  - change (name ++ "/" ++ subpath) with (name ++ String "/" subpath).
    by rewrite split_on_append.
Qed.

Lemma getPackageName_scoped_subpath_witness :
  getPackageName ("@myorg" ++ "/" ++ "utils") = "@myorg" ++ "/" ++ "utils" ∧
  getPackageName ("@myorg" ++ "/" ++ "utils" ++ "/" ++ "helpers/a") = "@myorg" ++ "/" ++ "utils".
Proof.
  apply (getPackageName_scoped_subpath "@myorg" "utils" "helpers/a"); reflexivity.
Defined.

(** X4: the message of a failure names one package only: two packages
    with the same message are the same package. *)
Theorem FAILURE_STRING_FACTORY_injective (module1 module2 : string) :
  FAILURE_STRING_FACTORY module1 = FAILURE_STRING_FACTORY module2 →
  module1 = module2.
Proof.
  unfold FAILURE_STRING_FACTORY. intros Heq.
  apply (inj (String.append "Module '")) in Heq.
  by apply append_cancel_r in Heq.
Qed.

Lemma FAILURE_STRING_FACTORY_injective_witness :
  getPackageName "chai/register-assert" = "chai".
Proof.
  apply (FAILURE_STRING_FACTORY_injective (getPackageName "chai/register-assert") "chai").
  reflexivity.
Defined.

(** ** More on options *)



(** ** More on the allowed set *)

Global Instance shadows_hasOwnProperty_dec (v : JsValue) :
  Decision (shadows_hasOwnProperty v).
Proof. destruct v; simpl; apply _. Defined.

(** What reading one section adds to the set, or [None] when reading it
    throws: on a manifest that is [null], and on a section with an entry
    ["hasOwnProperty"]. *)
Definition names_or_throw (content : JsValue) (s : ManifestSection) : option (gset string) :=
  match read_section content s with
  | Thrown => None
  | Returned None => Some ∅
  | Returned (Some deps) =>
      if decide (shadows_hasOwnProperty deps) then None
      else Some (list_to_set (enumerable_keys deps))
  end.

(** The sections [getDependencies] reads, in the order it reads them. *)
Definition sections_read (options : Options) : list ManifestSection :=
  [dependencies_section]
    ++ (if dev options then [devDependencies_section] else [peerDependencies_section])
    ++ (if optional options then [optionalDependencies_section] else []).

(** The union of the sets up to the first throw. *)
Fixpoint allowed_until_throw (effects : list (option (gset string))) : gset string :=
  match effects with
  | Some names :: rest => names ∪ allowed_until_throw rest
  | None :: _ | [] => ∅
  end.

Lemma addDependencies_shadowed (deps : JsValue) (result : gset string) :
  shadows_hasOwnProperty deps → addDependencies deps result = (Thrown, result).
Proof.
  destruct deps as [| | | |items|props]; try done. simpl.
  intros [v Hv]. unfold addDependencies. simpl.
  destruct props as [|[k w] props]; [done |]. simpl.
  unfold mbind, Filling_bind, evaluate. simpl. by rewrite Hv.
Qed.

Lemma add_section_effect (guard : bool) (content : JsValue) (s : ManifestSection)
      (result : gset string) :
  add_section guard content s result =
  match (if guard then names_or_throw content s else Some ∅) with
  | Some names => (Returned (), names ∪ result)
  | None => (Thrown, result)
  end.
Proof.
  unfold add_section, names_or_throw. destruct guard.
  - unfold mbind, Filling_bind, evaluate.
    destruct (read_section content s) as [[deps|]|]; [| |done].
    + case_decide as Hshadow.
      * by apply addDependencies_shadowed.
      * unfold addDependencies. by rewrite addDependencies_from_all.
    + unfold mret, Filling_ret. f_equal. set_solver.
  - unfold mret, Filling_ret. f_equal. set_solver.
Qed.

Section AllowedSets.
Context `{Platform}.
Variable fs : FileSystem.

(** The manifest of a file, when one is found, read and parsed. *)
Definition manifest_content (file : string) : option JsValue :=
  p ← (findPackageJson fs (path_resolve (path_dirname file))).1;
  raw ← readFileSync fs p;
  JSON_parse (remove_byte_order_mark raw).

Lemma read_manifest_in_order (options : Options) (p raw : string) (content : JsValue) :
  readFileSync fs p = Some raw →
  JSON_parse (remove_byte_order_mark raw) = Some content →
  (read_manifest fs options p ∅).2
  = allowed_until_throw (names_or_throw content <$> sections_read options).
Proof.
  intros Hread Hparse.
  unfold read_manifest, mbind, Filling_bind, or_throw. rewrite Hread, Hparse.
  cbv beta iota. rewrite add_section_effect.
  destruct (names_or_throw content dependencies_section) as [n1|] eqn:E1; cbv beta iota;
    [|unfold sections_read; simpl; by rewrite E1].
  rewrite add_section_effect.
  destruct (if negb (dev options) then _ else _) as [n2|] eqn:E2; cbv beta iota;
    [rewrite add_section_effect;
     destruct (if dev options then _ else _) as [n3|] eqn:E3; cbv beta iota;
     [rewrite add_section_effect;
      destruct (if optional options then _ else _) as [n4|] eqn:E4; cbv beta iota|]|];
    unfold sections_read; destruct (dev options), (optional options);
    simpl in *;
    repeat (match goal with
            | E : Some _ = Some _ |- _ => injection E as <-
            | E : Some _ = None |- _ => discriminate E
            end);
    rewrite ?E1, ?E2, ?E3, ?E4; simpl;
    rewrite ?E1, ?E2, ?E3, ?E4; simpl; rewrite ?E1, ?E2, ?E3, ?E4; simpl; set_solver.
Qed.

Lemma getDependencies_in_order (file : string) (options : Options) :
  (getDependencies fs file options).1 =
  match manifest_content file with
  | Some content => allowed_until_throw (names_or_throw content <$> sections_read options)
  | None => ∅
  end.
Proof.
  unfold manifest_content.
  destruct (findPackageJson fs (path_resolve (path_dirname file))).1 as [p|] eqn:Hfound.
  - rewrite (getDependencies_found _ _ _ _ Hfound). simpl.
    destruct (readFileSync fs p) as [raw|] eqn:Hread; simpl.
    + destruct (JSON_parse (remove_byte_order_mark raw)) as [content|] eqn:Hparse.
      * by apply (read_manifest_in_order options p raw).
      * by rewrite read_manifest_unreadable by (right; by exists raw).
    + by rewrite read_manifest_unreadable by (by left).
  - by rewrite getDependencies_not_found.
Qed.

Lemma names_or_throw_bound (content : JsValue) (s : ManifestSection) (names : gset string) :
  names_or_throw content s = Some names → names ⊆ section_names content s.
Proof.
  unfold names_or_throw, section_names.
  destruct (read_section content s) as [[deps|]|]; [|by intros [= <-] |done].
  case_decide; [done |]. by intros [= <-].
Qed.

Lemma allowed_until_throw_bound (content : JsValue) (sections : list ManifestSection) :
  allowed_until_throw (names_or_throw content <$> sections)
  ⊆ ⋃ (section_names content <$> sections).
Proof.
  induction sections as [|s sections IH]; simpl; [done |].
  destruct (names_or_throw content s) as [names|] eqn:Hnames; [|set_solver].
  apply names_or_throw_bound in Hnames. set_solver.
Qed.

Lemma spec_AllowedSet_sections (content : JsValue) (options : Options) :
  spec_AllowedSet content options = ⋃ (section_names content <$> sections_read options).
Proof.
  unfold spec_AllowedSet, sections_read.
  destruct (dev options), (optional options); simpl; set_solver.
Qed.

Lemma allowed_until_throw_app (effects more : list (option (gset string))) :
  allowed_until_throw effects ⊆ allowed_until_throw (effects ++ more).
Proof.
  induction effects as [|[names|] effects IH]; simpl; set_solver.
Qed.

(** X7: the allowed set never holds a name that is not a key of a section
    that the options select, whether or not reading the manifest ends with
    a throw. *)
Theorem getDependencies_within_selected (file : string) (options : Options)
    (content : JsValue) :
  manifest_content file = Some content →
  (getDependencies fs file options).1 ⊆ spec_AllowedSet content options.
Proof.
  intros Hcontent. rewrite getDependencies_in_order, Hcontent.
  rewrite spec_AllowedSet_sections. apply allowed_until_throw_bound.
Qed.

(** X8: on a manifest none of whose selected sections has an entry called
    ["hasOwnProperty"], the allowed set is the names of [dependencies], of
    [devDependencies] under [dev] and of [peerDependencies] otherwise, and
    of [optionalDependencies] under [optional]; no other section counts. *)
Theorem getDependencies_plain_manifest (file : string) (options : Options)
    (content : JsValue) :
  manifest_content file = Some content →
  (∀ s deps, selected options s = true →
             read_section content s = Returned (Some deps) →
             ¬ shadows_hasOwnProperty deps) →
  (getDependencies fs file options).1
  = section_names content dependencies_section
    ∪ (if dev options then section_names content devDependencies_section
       else section_names content peerDependencies_section)
    ∪ (if optional options then section_names content optionalDependencies_section
       else ∅).
Proof.
  unfold manifest_content. intros Hcontent Hplain.
  destruct (findPackageJson fs (path_resolve (path_dirname file))).1 as [p|] eqn:Hfound;
    [|done]. simpl in Hcontent.
  destruct (readFileSync fs p) as [raw|] eqn:Hread; [|done]. simpl in Hcontent.
  by apply (getDependencies_selected fs file options p raw content).
Qed.

(** X9: the sections are read in the order [dependencies], then
    [peerDependencies] or [devDependencies], then [optionalDependencies];
    the allowed set is what the sections before the first throw list.  A
    section throws when the manifest is [null] or the section has an entry
    called ["hasOwnProperty"]; with no manifest that is found, read and
    parsed, the set is empty. *)
Theorem getDependencies_until_throw (file : string) (options : Options) :
  (getDependencies fs file options).1 =
  match manifest_content file with
  | Some content => allowed_until_throw (names_or_throw content <$> sections_read options)
  | None => ∅
  end.
Proof. apply getDependencies_in_order. Qed.

(** X10: switching [optional] on never takes a name out of the allowed
    set. *)
Theorem getDependencies_optional_grows (file : string) (dev_ : bool) (ignore_ : list string) :
  (getDependencies fs file {| dev := dev_; optional := false; ignore := ignore_ |}).1
  ⊆ (getDependencies fs file {| dev := dev_; optional := true; ignore := ignore_ |}).1.
Proof.
  rewrite !getDependencies_in_order. destruct (manifest_content file) as [content|]; [|done].
  unfold sections_read. destruct dev_; simpl;
    apply (allowed_until_throw_app [_; _] [_]).
Qed.

End AllowedSets.

Lemma getDependencies_within_selected_witness :
  (getDependencies (H := node_in_home) (project (Some (stringify manifest_shadowing)))
     "proj/src/index.ts" default_options).1
  ⊆ spec_AllowedSet manifest_shadowing default_options.
Proof.
  apply (getDependencies_within_selected (H := node_in_home)
           (project (Some (stringify manifest_shadowing))) "proj/src/index.ts"
           default_options manifest_shadowing).
  reflexivity.
Defined.

Lemma getDependencies_plain_manifest_witness :
  (getDependencies (H := node_in_home) (project (Some (stringify manifest_full)))
     "proj/src/index.ts" dev_options).1
  = section_names manifest_full dependencies_section
    ∪ section_names manifest_full devDependencies_section ∪ ∅.
Proof.
  apply (getDependencies_plain_manifest (H := node_in_home)
           (project (Some (stringify manifest_full))) "proj/src/index.ts"
           dev_options manifest_full); [reflexivity |].
  intros [] deps Hselected; try discriminate Hselected;
    intros [= <-]; by intros [v Hv].
Defined.

(** ** The byte order mark *)

Lemma remove_byte_order_mark_once (content : string) :
  remove_byte_order_mark (byte_order_mark ++ content) = content.
Proof. reflexivity. Qed.

Lemma findPackageJson_same_files `{Platform} (fs1 fs2 : FileSystem) (start : string) :
  (∀ q, existsSync fs1 q = existsSync fs2 q) →
  findPackageJson fs1 start = findPackageJson fs2 start.
Proof.
  intros Hsame.
  assert (Hchain : ancestor_chain start (ancestors start))
    by by apply ancestors_within_chain.
  revert Hchain. generalize (ancestors start). intros l Hchain.
  induction Hchain as [directory Hfix | directory l Hne _ IH];
    rewrite (findPackageJson_step fs1), (findPackageJson_step fs2), Hsame.
  - destruct (existsSync fs2 _); [done |]. by destruct (decide _).
  - destruct (existsSync fs2 _); [done |]. destruct (decide _); [done |]. by rewrite IH.
Qed.

(** X6: a byte order mark at the start of the manifest changes neither the
    allowed set nor what is read: two file systems with the same files,
    whose manifest differs by the mark only, resolve alike. *)
Theorem getDependencies_byte_order_mark `{Platform} (fs1 fs2 : FileSystem)
    (file : string) (options : Options) (p raw : string) :
  (∀ q, existsSync fs1 q = existsSync fs2 q) →
  (findPackageJson fs2 (path_resolve (path_dirname file))).1 = Some p →
  readFileSync fs2 p = Some raw →
  readFileSync fs1 p = Some (byte_order_mark ++ raw) →
  remove_byte_order_mark raw = raw →
  getDependencies fs1 file options = getDependencies fs2 file options.
Proof.
  intros Hsame Hfound Hread2 Hread1 Hplain.
  unfold getDependencies. rewrite (findPackageJson_same_files fs1 fs2) by done.
  rewrite Hfound. f_equal. f_equal.
  unfold read_manifest, mbind, Filling_bind, or_throw.
  by rewrite Hread1, Hread2, remove_byte_order_mark_once, Hplain.
Qed.

Lemma getDependencies_byte_order_mark_witness :
  getDependencies (H := node_in_home)
    (project (Some (byte_order_mark ++ stringify manifest_full)))
    "proj/src/index.ts" default_options
  = getDependencies (H := node_in_home)
      (project (Some (stringify manifest_full))) "proj/src/index.ts" default_options.
Proof.
  apply (getDependencies_byte_order_mark (H := node_in_home)
           (project (Some (byte_order_mark ++ stringify manifest_full)))
           (project (Some (stringify manifest_full)))
           "proj/src/index.ts" default_options "/home/u/proj/package.json"
           (stringify manifest_full)); reflexivity.
Defined.

(** ** More on runs *)

Lemma filter_findings (R R' : Node → Prop) (Q : RuleFailure → Prop)
      `{∀ n, Decision (R n)} `{∀ n, Decision (R' n)} `{∀ f, Decision (Q f)}
      (names : list Node) :
  (∀ n, R' n ↔ R n ∧ Q (finding n)) →
  finding <$> filter R' names = filter Q (finding <$> filter R names).
Proof.
  intros Hiff. induction names as [|n names IH]; [done |].
  rewrite !filter_cons. specialize (Hiff n).
  destruct (decide (R' n)), (decide (R n)); rewrite ?fmap_cons, ?filter_cons;
    try destruct (decide (Q (finding n))); rewrite ?IH; try done; tauto.
Qed.

Lemma failure_node_finding (names : list Node) :
  failure_node <$> (finding <$> names) = names.
Proof.
  induction names as [|n names IH]; [done |].
  rewrite !fmap_cons. by rewrite IH.
Qed.

Section Runs.
Context `{Platform}.
Variable fs : FileSystem.

(** X11: the more the allowed set and the ignore list hold, the fewer the
    findings: under the larger sets the findings are those of the smaller
    sets, in the same order, whose package the larger sets do not hold. *)
Theorem walk_fewer_findings (sourceFile : SourceFile) (options options' : Options) :
  AllowedSet fs sourceFile options ⊆ AllowedSet fs sourceFile options' →
  ignore options ⊆ ignore options' →
  failures (walk fs sourceFile options')
  = filter (λ f, (getPackageName (text (failure_node f)) ∉ AllowedSet fs sourceFile options')
                 ∧ (getPackageName (text (failure_node f)) ∉ ignore options'))
      (failures (walk fs sourceFile options)).
Proof.
  intros Hallowed Hignored. rewrite !walk_failures. apply filter_findings.
  intros n. unfold reported. simpl. set_solver.
Qed.

(** X12: the ignore list takes no part in resolving the allowed set, and
    adding names to it removes the findings for these names and no
    other. *)
Theorem walk_ignore_more (sourceFile : SourceFile) (options : Options) (more : list string) :
  let options' :=
    {| dev := dev options; optional := optional options;
       ignore := (ignore options ++ more)%list |} in
  getDependencies fs (fileName sourceFile) options'
    = getDependencies fs (fileName sourceFile) options ∧
  failures (walk fs sourceFile options')
  = filter (λ f, getPackageName (text (failure_node f)) ∉ more)
      (failures (walk fs sourceFile options)).
Proof.
  intros options'. split; [done |].
  rewrite !walk_failures. apply filter_findings.
  intros n. unfold reported, AllowedSet. simpl. set_solver.
Qed.

(** X13: a run touches the file system if and only if some reference is
    neither relative nor built in; without one the run ends in the state
    it started in. *)
Theorem walk_touches_files_iff (sourceFile : SourceFile) (options : Options) :
  (trace (walk fs sourceFile options) = []
   ↔ Forall (λ n, ¬ decided n) (findImports sourceFile)) ∧
  (Forall (λ n, ¬ decided n) (findImports sourceFile) →
   walk fs sourceFile options = initial_state).
Proof.
  assert (Hidle : Forall (λ n, ¬ decided n) (findImports sourceFile) →
                  walk fs sourceFile options = initial_state).
  { unfold walk. generalize initial_state.
    induction (findImports sourceFile) as [|n names IH]; intros st Hnone; simpl; [done |].
    apply Forall_cons in Hnone as [Hn Hnames].
    rewrite visit_undecided by done. by apply IH. }
  split; [|done]. split; [|by intros ->%Hidle].
  intros Htrace.
  destruct (decide (Forall (λ n, ¬ decided n) (findImports sourceFile)))
    as [|Hsome%not_Forall_Exists]; [done | |apply _].
  assert (Hdecided : Exists decided (findImports sourceFile)).
  { eapply Exists_impl; [exact Hsome |]. intros n Hn. by apply dec_stable. }
  pose proof (foldl_visit_decides fs sourceFile options initial_state _
                (initial_consistent _ _ _) Hdecided) as Hmemo.
  pose proof (foldl_visit_consistent fs sourceFile options initial_state
                (findImports sourceFile) (initial_consistent _ _ _)) as Hend.
  unfold consistent in Hend. rewrite Hmemo in Hend. destruct Hend as [_ Hend].
  fold (walk fs sourceFile options) in Hend. by rewrite Hend in Htrace.
Qed.

(** X14: a run asks for nothing but the [package.json] of the directory of
    the file and of its ancestors, and reads nothing but the one among
    them that [findPackageJson] returns, which exists. *)
Theorem walk_touches_only_manifests (sourceFile : SourceFile) (options : Options) :
  let start := path_resolve (path_dirname (fileName sourceFile)) in
  Forall (λ e,
            match e with
            | CallGetDependencies file => file = fileName sourceFile
            | ExistsSync q => ∃ d, d ∈ ancestors start ∧ q = manifest_of d
            | ReadFileSync q =>
                (∃ d, d ∈ ancestors start ∧ q = manifest_of d) ∧
                existsSync fs q = true ∧
                (findPackageJson fs start).1 = Some q
            end)
         (trace (walk fs sourceFile options)).
Proof.
  intros start.
  pose proof (foldl_visit_consistent fs sourceFile options initial_state
                (findImports sourceFile) (initial_consistent _ _ _)) as Hend.
  fold (walk fs sourceFile options) in Hend. unfold consistent in Hend.
  destruct (dependencies (walk fs sourceFile options)); [|by rewrite Hend].
  destruct Hend as [_ ->]. unfold resolution_trace. constructor; [done |].
  destruct (findPackageJson_along_chain fs start (ancestors start)) as [Hresult Htrace];
    [by apply ancestors_within_chain |].
  assert (Hprobes : Forall (λ e,
            match e with
            | CallGetDependencies file => file = fileName sourceFile
            | ExistsSync q => ∃ d, d ∈ ancestors start ∧ q = manifest_of d
            | ReadFileSync q =>
                (∃ d, d ∈ ancestors start ∧ q = manifest_of d) ∧
                existsSync fs q = true ∧
                (findPackageJson fs start).1 = Some q
            end) (findPackageJson fs start).2).
  { rewrite Htrace. apply Forall_fmap, Forall_forall. intros d Hd. simpl.
    exists d. split; [|done]. eapply elem_of_subseteq; [|exact Hd].
    apply sublist_subseteq, sublist_take. }
  unfold getDependencies. fold start.
  destruct (findPackageJson fs start).1 as [p|] eqn:Hfound; simpl; [|done].
  apply Forall_app. split; [done |]. constructor; [|done].
  destruct (list_find (has_manifest fs) (ancestors start)) as [[i d]|] eqn:Hfind;
    [|done]. injection Hresult as ->.
  apply list_find_Some in Hfind as (Hd & Hexists & _).
  split; [|done]. exists d. split; [|done]. by eapply list_elem_of_lookup_2.
Qed.

(** X15: the findings of a file are those of its first references
    followed by those of the rest: a finding depends on its own reference
    and on the file, not on the references around it. *)
Theorem walk_app (file : string) (names1 names2 : list Node) (options : Options) :
  failures (walk fs {| fileName := file; findImports := (names1 ++ names2)%list |} options)
  = (failures (walk fs {| fileName := file; findImports := names1 |} options)
       ++ failures (walk fs {| fileName := file; findImports := names2 |} options))%list.
Proof. rewrite !walk_failures. simpl. by rewrite filter_app, fmap_app. Qed.

(** X16: the references of the findings are references of the file, each
    at most once per occurrence and in the order of the file; there are no
    more findings than references. *)
Theorem walk_failures_sublist (sourceFile : SourceFile) (options : Options) :
  failure_node <$> failures (walk fs sourceFile options) `sublist_of` findImports sourceFile ∧
  (length (failures (walk fs sourceFile options)) ≤ length (findImports sourceFile))%nat.
Proof.
  rewrite walk_failures. split.
  - rewrite failure_node_finding. apply sublist_filter.
  - rewrite length_fmap. apply length_filter.
Qed.

(** X17: a reference whose package is in the allowed set or in the ignore
    list gets no finding; when it is neither relative nor built in it
    still makes the run resolve the allowed set, also when the ignore list
    alone would settle it. *)
Theorem allowed_or_ignored_never_reported (sourceFile : SourceFile) (options : Options)
    (name : Node) :
  decided name →
  getPackageName (text name) ∈ AllowedSet fs sourceFile options
  ∨ getPackageName (text name) ∈ ignore options →
  Forall (λ f, failure_node f ≠ name) (failures (walk fs sourceFile options)) ∧
  visit fs sourceFile options initial_state name
  = {| dependencies := Some (AllowedSet fs sourceFile options);
       failures := [];
       trace := resolution_trace fs sourceFile options |}.
Proof.
  intros Hdecided Hsettled.
  assert (Hquiet : ¬ reported fs sourceFile options name)
    by (unfold reported; tauto).
  split.
  - apply Forall_forall.
    intros f (name' & -> & _ & Hreported)%elem_of_walk_failures. simpl.
    by intros ->.
  - destruct (visit_decided fs sourceFile options initial_state name
                (initial_consistent _ _ _) Hdecided) as (Hmemo & Htrace & Hfailures).
    rewrite decide_False in Hfailures by done. simpl in Hfailures.
    destruct (visit fs sourceFile options initial_state name). simpl in *. by subst.
Qed.

End Runs.

Lemma walk_fewer_findings_witness :
  failures (walk (H := node_in_home) (project (Some (stringify manifest_full)))
              (source [import_of "fsevents" 7; import_of "left-pad" 30])
              {| dev := false; optional := true; ignore := ["left-pad"] |}) = [].
Proof.
  rewrite (walk_fewer_findings (H := node_in_home)
             (project (Some (stringify manifest_full)))
             (source [import_of "fsevents" 7; import_of "left-pad" 30])
             default_options {| dev := false; optional := true; ignore := ["left-pad"] |}).
  - vm_compute. reflexivity.
  - apply (bool_decide_unpack _). vm_compute. exact I.
  - apply (bool_decide_unpack _). vm_compute. exact I.
Defined.

Lemma walk_touches_files_iff_witness :
  walk (H := node_in_home) (project (Some (stringify manifest_full)))
    (source [import_of "fs" 7; import_of "../lib/util" 30; import_of "path" 60])
    dev_options = initial_state.
Proof.
  apply (walk_touches_files_iff (H := node_in_home)
           (project (Some (stringify manifest_full)))
           (source [import_of "fs" 7; import_of "../lib/util" 30; import_of "path" 60])
           dev_options).
  apply (bool_decide_unpack _). vm_compute. exact I.
Defined.

Lemma allowed_or_ignored_never_reported_witness :
  Forall (λ f, failure_node f ≠ import_of "internal-alias" 7)
    (failures (walk (H := node_in_home) no_manifest
                 (source [import_of "internal-alias" 7; import_of "left-pad" 40])
                 {| dev := false; optional := false; ignore := ["internal-alias"] |})) ∧
  trace (visit (H := node_in_home) no_manifest
           (source [import_of "internal-alias" 7; import_of "left-pad" 40])
           {| dev := false; optional := false; ignore := ["internal-alias"] |}
           initial_state (import_of "internal-alias" 7))
  = [CallGetDependencies "proj/src/index.ts";
     ExistsSync "/home/u/proj/src/package.json"; ExistsSync "/home/u/proj/package.json";
     ExistsSync "/home/u/package.json"; ExistsSync "/home/package.json";
     ExistsSync "/package.json"].
Proof.
  destruct (allowed_or_ignored_never_reported (H := node_in_home) no_manifest
              (source [import_of "internal-alias" 7; import_of "left-pad" 40])
              {| dev := false; optional := false; ignore := ["internal-alias"] |}
              (import_of "internal-alias" 7)) as [Hquiet Hstate].
  - apply (bool_decide_unpack _). vm_compute. exact I.
  - right. apply (bool_decide_unpack _). vm_compute. exact I.
  - split; [exact Hquiet |]. rewrite Hstate. reflexivity.
Defined.
